(** * videoscrape_tg: the batch queue controller of [main.py]

    A shallow embedding of the Telegram video bot's queue controller:
    the global [current_batch] dictionary, the notifier helpers, the
    per-link pipeline [process_single_link], the loop [process_batch] and
    the operator's command handlers, followed by the properties of the
    controller that the specification states.

    Modelling conventions.
    - Python [int] is [Z]; [%] with a positive divisor is [Z.modulo].
    - [current_batch] is one record that every function reads and writes:
      the functions are computations in a state monad over it.
    - Calls that leave the process (Telegram API, downloader, file system)
      take their outcome from an environment record; what was delivered is
      appended to a trace.
    - Python exceptions are an explicit result: [Exception msg] is what
      [except Exception] catches, [CancelledError] is what it does not
      (it derives from [BaseException] since Python 3.8).
    - Every [await] on the Telegram API is a suspension point of the
      processing task: the environment says which operator handlers the
      event loop ran there, or that the task was cancelled there.
    - Command handlers are taken from the point where the sender has been
      checked against [ADMIN_UID]; their replies to the operator are taken
      as delivered. The application is built without concurrent updates, so
      handlers run one at a time, but the processing task advances while a
      handler awaits a reply. Where the next step of a handler depends on
      what it reads of [current_batch] after such an await ([skip_links]
      before it delegates to [clear_queue], [add_links_to_queue] before its
      restart test), what the event loop did meanwhile is a parameter of the
      handler; [handle] runs the handlers with the task standing still.
    - A [str] is the string of its UTF-8 bytes. [str.isdigit] and [int],
      whose answers depend on the Unicode tables, are parameters of the
      handlers that call them.
    - Chat identifiers and the wording of messages are abstracted: a message
      is a constructor carrying the values the source formats into it. *)

From Stdlib Require Import ZArith List String Ascii Bool Lia.
Import ListNotations.
Local Open Scope Z_scope.

(** ** The batch record *)

(** [current_batch['caption_settings']]. *)
Record caption_settings := mkCaption {
  cap_active : bool;
  cap_remaining : Z;
  cap_text : option string
}.

(** [current_batch]. [start_time] holds a clock reading. *)
Record batch := mkBatch {
  all_links : list string;
  processed : Z;
  failed : list string;
  remaining : list string;
  start_time : option Z;
  user_id : option Z;
  last_processed_link : option string;
  is_processing : bool;
  is_paused : bool;
  status_message_id : option Z;
  last_auto_send : Z;
  caption : caption_settings
}.

Definition no_caption : caption_settings := mkCaption false 0 None.

(** The module-level initial value of [current_batch]. *)
Definition initial_batch : batch :=
  mkBatch [] 0 [] [] None None None false false None 0 no_caption.

Definition set_all_links (v : list string) (b : batch) : batch :=
  mkBatch v (processed b) (failed b) (remaining b) (start_time b) (user_id b)
    (last_processed_link b) (is_processing b) (is_paused b)
    (status_message_id b) (last_auto_send b) (caption b).

Definition set_processed (v : Z) (b : batch) : batch :=
  mkBatch (all_links b) v (failed b) (remaining b) (start_time b) (user_id b)
    (last_processed_link b) (is_processing b) (is_paused b)
    (status_message_id b) (last_auto_send b) (caption b).

Definition set_failed (v : list string) (b : batch) : batch :=
  mkBatch (all_links b) (processed b) v (remaining b) (start_time b) (user_id b)
    (last_processed_link b) (is_processing b) (is_paused b)
    (status_message_id b) (last_auto_send b) (caption b).

Definition set_remaining (v : list string) (b : batch) : batch :=
  mkBatch (all_links b) (processed b) (failed b) v (start_time b) (user_id b)
    (last_processed_link b) (is_processing b) (is_paused b)
    (status_message_id b) (last_auto_send b) (caption b).

Definition set_start_time (v : option Z) (b : batch) : batch :=
  mkBatch (all_links b) (processed b) (failed b) (remaining b) v (user_id b)
    (last_processed_link b) (is_processing b) (is_paused b)
    (status_message_id b) (last_auto_send b) (caption b).

Definition set_last_processed_link (v : option string) (b : batch) : batch :=
  mkBatch (all_links b) (processed b) (failed b) (remaining b) (start_time b)
    (user_id b) v (is_processing b) (is_paused b)
    (status_message_id b) (last_auto_send b) (caption b).

Definition set_is_processing (v : bool) (b : batch) : batch :=
  mkBatch (all_links b) (processed b) (failed b) (remaining b) (start_time b)
    (user_id b) (last_processed_link b) v (is_paused b)
    (status_message_id b) (last_auto_send b) (caption b).

Definition set_is_paused (v : bool) (b : batch) : batch :=
  mkBatch (all_links b) (processed b) (failed b) (remaining b) (start_time b)
    (user_id b) (last_processed_link b) (is_processing b) v
    (status_message_id b) (last_auto_send b) (caption b).

Definition set_status_message_id (v : option Z) (b : batch) : batch :=
  mkBatch (all_links b) (processed b) (failed b) (remaining b) (start_time b)
    (user_id b) (last_processed_link b) (is_processing b) (is_paused b)
    v (last_auto_send b) (caption b).

Definition set_last_auto_send (v : Z) (b : batch) : batch :=
  mkBatch (all_links b) (processed b) (failed b) (remaining b) (start_time b)
    (user_id b) (last_processed_link b) (is_processing b) (is_paused b)
    (status_message_id b) v (caption b).

Definition set_caption_settings (v : caption_settings) (b : batch) : batch :=
  mkBatch (all_links b) (processed b) (failed b) (remaining b) (start_time b)
    (user_id b) (last_processed_link b) (is_processing b) (is_paused b)
    (status_message_id b) (last_auto_send b) v.

(** ** Python values *)

(** Truth value of an optional integer: [None] and [0] are false. *)
Definition truthy (o : option Z) : bool :=
  match o with
  | Some z => negb (z =? 0)
  | None => false
  end.

(** Truth value of a list: the empty list is false. *)
Definition nonempty {A : Type} (l : list A) : bool :=
  match l with
  | [] => false
  | _ :: _ => true
  end.

Definition len {A : Type} (l : list A) : Z := Z.of_nat (List.length l).

(** [url.startswith('http://') or url.startswith('https://')]. *)
Definition is_url (url : string) : bool :=
  String.prefix "http://" url || String.prefix "https://" url.

(** [list.remove(x)]: drops the first element equal to [x]; [None] stands
    for the [ValueError] raised when there is none. *)
Fixpoint list_remove (x : string) (l : list string) : option (list string) :=
  match l with
  | [] => None
  | y :: l' =>
      if String.eqb x y then Some l'
      else option_map (cons y) (list_remove x l')
  end.

(** ** What leaves the process *)

(** The live status text, with the values formatted into it. *)
Inductive status_text :=
| StDownloading (url : string) (n total : Z)
| StError (url : string) (n total : Z) (msg : string)
| StDownloaded (url : string) (n total : Z)
| StUploading (url : string) (n total : Z)
| StPaused (done total : Z) (last : option string)
| StResuming (done total : Z) (next : option string).

(** What [get_highest_quality_video] returned: [None], or a path that does
    or does not exist. *)
Inductive fetch_result :=
| FetchNone
| FetchPath (exists_ : bool).

(** Replies of the command handlers to the operator. *)
Inductive reply :=
| RSkipNotPositive
| RSkipNoBatch
| RSkipCancelling (n size : Z)
| RSkipResumed (next : Z)
| RNoRemaining
| RPauseNoProcessing
| RPauseAlready
| RPaused
| RResumeNotPaused
| RResumed
| RQueueEmpty
| RCleared (count : Z)
| RCaptionNotPositive
| RCaptionSet (count : Z) (text : string)
| RBatchStarting (count : Z)
| RLinksAdded (added total current : Z).

(** One entry per delivered call (and per failed upload). *)
Inductive io :=
| StatusSent (t : status_text) (id : Z)
| StatusEdited (id : Z) (t : status_text)
| Fetched (url : string) (r : fetch_result)
| NoticeSent
| VideoSent (url : string) (cap : option string)
| VideoFailed (url : string) (cap : option string) (msg : string)
| CompletionSent (url : string) (success : bool) (error_msg : string)
    (done total remain : Z)
| RemainSent (lines : list string) (done total remain_count : Z)
    (last : option string)
| SummarySent (success failures elapsed : Z)
| FatalSent (msg : string)
| Unlinked (url : string)
| Replied (r : reply)
| SkippedDoc (lines : list string) (n done total remain_count : Z)
| RemainDoc (lines : list string) (done total remain_count : Z)
    (last : option string).

Definition trace := list io.

(** ** Computations over [current_batch] *)

Inductive exn :=
| Exception (msg : string)
| CancelledError.

(** [Pending]: the coroutine is still suspended when the observation ends
    (parked in the pause loop, or the script of the run is used up). *)
Inductive result (A : Type) :=
| Ok (a : A)
| Raise (e : exn)
| Pending.

Arguments Ok {A} a.
Arguments Raise {A} e.
Arguments Pending {A}.

Definition M (A : Type) : Type := batch -> result A * batch * trace.

Definition ret {A : Type} (a : A) : M A := fun b => (Ok a, b, []).

Definition bind {A B : Type} (m : M A) (k : A -> M B) : M B :=
  fun b =>
    match m b with
    | (Ok a, b1, t1) =>
        match k a b1 with
        | (r, b2, t2) => (r, b2, t1 ++ t2)
        end
    | (Raise e, b1, t1) => (Raise e, b1, t1)
    | (Pending, b1, t1) => (Pending, b1, t1)
    end.

Declare Scope batch_scope.
Delimit Scope batch_scope with batch.
Notation "x <- m ;; k" := (bind m (fun x => k))
  (at level 61, m at next level, right associativity) : batch_scope.
Notation "m ;; k" := (bind m (fun _ => k))
  (at level 61, right associativity) : batch_scope.
Local Open Scope batch_scope.

Definition get : M batch := fun b => (Ok b, b, []).
Definition modify (f : batch -> batch) : M unit := fun b => (Ok tt, f b, []).
Definition emit (x : io) : M unit := fun b => (Ok tt, b, [x]).
Definition raise {A : Type} (e : exn) : M A := fun b => (Raise e, b, []).

(** [try: m  except Exception as e: h (str e)]. A [CancelledError] is not
    an [Exception] and passes through. *)
Definition try_except {A : Type} (m : M A) (h : string -> M A) : M A :=
  fun b =>
    match m b with
    | (Raise (Exception msg), b1, t1) =>
        match h msg b1 with
        | (r, b2, t2) => (r, b2, t1 ++ t2)
        end
    | other => other
    end.

(** [try: m  finally: f], for a [finally] clause that does not raise. A
    coroutine that is still suspended has not reached its [finally]. *)
Definition try_finally {A : Type} (m : M A) (f : M unit) : M A :=
  fun b =>
    match m b with
    | (Pending, b1, t1) => (Pending, b1, t1)
    | (r, b1, t1) =>
        match f b1 with
        | (_, b2, t2) => (r, b2, t1 ++ t2)
        end
    end.

(** ** Suspension points *)

(** What happens while the task is suspended in an [await]: the event loop
    runs operator handlers, which act on [current_batch], or [task.cancel()]
    is delivered and the [await] raises [CancelledError]. *)
Inductive arrival :=
| Handler (f : batch -> batch)
| Cancel.

Definition nobody : arrival := Handler (fun b => b).

Definition at_await (a : arrival) : M unit :=
  match a with
  | Handler f => modify f
  | Cancel => raise CancelledError
  end.

(** The status updates of one link. *)
Inductive phase :=
| PhDownloading
| PhFetchError
| PhDownloaded
| PhUploading
| PhException.

(** The awaits of one link that go to the Telegram API. The download is
    not among them: [get_highest_quality_video] never suspends. *)
Inductive site :=
| AtStatus (ph : phase)
| AtNotice
| AtVideo
| AtCompletion
| AtRemain.

(** The outside world during one iteration of the loop. An error field is
    [Some msg] when the call raises [Exception(msg)]. *)
Record item_env := mkItemEnv {
  sleeps : list arrival;
  arrive : site -> arrival;
  io_status : phase -> option Z;
  io_fetch : fetch_result;
  io_open_error : option string;
  io_notice_error : option string;
  io_video_error : option string;
  io_completion_error : option string;
  io_remain_error : option string
}.

(** No handler runs and nothing is cancelled during the iteration. *)
Definition quiet (e : item_env) : Prop := forall s, arrive e s = nobody.

(** ** Notifier *)

(** [update_status_message]: edit the live status message when there is
    one, else send a new one and remember its id. [delivered] is the id of
    the message when the call succeeds; a failure is logged and dropped. *)
Definition update_status_message (a : arrival) (delivered : option Z)
    (status : status_text) : M unit :=
  b <- get ;;
  if truthy (status_message_id b) then
    at_await a ;;
    match delivered, status_message_id b with
    | Some _, Some id => emit (StatusEdited id status)
    | _, _ => ret tt
    end
  else
    at_await a ;;
    match delivered with
    | Some id => emit (StatusSent status id) ;;
                 modify (set_status_message_id (Some id))
    | None => ret tt
    end.

Section Item.

Variable e : item_env.

(** [send_remain_links]. *)
Definition send_remain_links : M unit :=
  b <- get ;;
  if negb (nonempty (remaining b)) || negb (truthy (user_id b)) then ret tt
  else
    let remain_count := len (remaining b) in
    let done := processed b in
    let total := len (all_links b) in
    if done - last_auto_send b <? 5 then ret tt
    else
      modify (set_last_auto_send done) ;;
      at_await (arrive e AtRemain) ;;
      match io_remain_error e with
      | Some msg => raise (Exception msg)
      | None =>
          emit (RemainSent (remaining b) done total remain_count
                  (last_processed_link b))
      end.

(** [send_completion_notification]. *)
Definition send_completion_notification (url : string) (success : bool)
    (error_msg : string) : M unit :=
  b <- get ;;
  let done := processed b in
  let total := len (all_links b) in
  let remain := total - done in
  try_except
    (at_await (arrive e AtCompletion) ;;
     match io_completion_error e with
     | Some msg => raise (Exception msg)
     | None => emit (CompletionSent url success error_msg done total remain)
     end ;;
     modify (set_status_message_id None) ;;
     if (0 <? done) && (done mod 5 =? 0) then send_remain_links else ret tt)
    (fun _ => ret tt).

Definition status (ph : phase) (t : status_text) : M unit :=
  update_status_message (arrive e (AtStatus ph)) (io_status e ph) t.

(** The caption block of [process_single_link]: the caption to use for
    this upload. *)
Definition take_caption : M (option string) :=
  b <- get ;;
  if cap_active (caption b) then
    let cap := cap_text (caption b) in
    let left := cap_remaining (caption b) - 1 in
    modify (set_caption_settings
              (mkCaption (cap_active (caption b)) left (cap_text (caption b)))) ;;
    (if left <=? 0 then
       modify (fun b1 => set_caption_settings
                 (mkCaption false (cap_remaining (caption b1))
                    (cap_text (caption b1))) b1) ;;
       at_await (arrive e AtNotice) ;;
       match io_notice_error e with
       | Some msg => raise (Exception msg)
       | None => emit NoticeSent
       end
     else ret tt) ;;
    ret cap
  else ret None.

(** [process_single_link]. The local [video_path] is [None] until the
    download has returned, and nothing before that point raises an
    [Exception], so the [finally] clause only matters from there on. *)
Definition process_single_link (url : string) : M bool :=
  modify (set_last_processed_link (Some url)) ;;
  b <- get ;;
  let n := processed b + 1 in
  let total := len (all_links b) in
  let on_error (msg : string) : M bool :=
    status PhException (StError url n total msg) ;;
    modify (fun b1 => set_failed (failed b1 ++ [url]) b1) ;;
    send_completion_notification url false msg ;;
    ret false in
  status PhDownloading (StDownloading url n total) ;;
  emit (Fetched url (io_fetch e)) ;;
  try_finally
    (try_except
       (match io_fetch e with
        | FetchNone =>
            status PhFetchError (StError url n total "Video exceeds 49MB limit") ;;
            modify (fun b1 => set_failed (failed b1 ++ [url]) b1) ;;
            send_completion_notification url false "Video exceeds 49MB limit" ;;
            ret false
        | FetchPath false =>
            status PhFetchError (StError url n total "Download failed") ;;
            modify (fun b1 => set_failed (failed b1 ++ [url]) b1) ;;
            send_completion_notification url false "Download failed" ;;
            ret false
        | FetchPath true =>
            status PhDownloaded (StDownloaded url n total) ;;
            match io_open_error e with
            | Some msg => raise (Exception msg)
            | None => ret tt
            end ;;
            status PhUploading (StUploading url n total) ;;
            cap <- take_caption ;;
            at_await (arrive e AtVideo) ;;
            match io_video_error e with
            | Some msg => emit (VideoFailed url cap msg) ;;
                          raise (Exception msg)
            | None => emit (VideoSent url cap)
            end ;;
            modify (fun b1 => set_processed (processed b1 + 1) b1) ;;
            send_completion_notification url true EmptyString ;;
            ret true
        end)
       on_error)
    (match io_fetch e with
     | FetchPath true => emit (Unlinked url)
     | _ => ret tt
     end).

End Item.

(** ** The processing loop *)

(** [try: m  except asyncio.CancelledError / except Exception: h]. *)
Definition try_catch {A : Type} (m : M A) (h : exn -> M A) : M A :=
  fun b =>
    match m b with
    | (Raise x, b1, t1) =>
        match h x b1 with
        | (r, b2, t2) => (r, b2, t1 ++ t2)
        end
    | other => other
    end.

(** The outside world of one run of [process_batch], apart from its
    iterations: two clock readings and the two messages sent outside the
    loop. *)
Record loop_env := mkLoopEnv {
  now_start : Z;
  now_end : Z;
  arrive_final : arrival;
  io_final_error : option string;
  arrive_fatal : arrival;
  io_fatal_error : option string
}.

(** [while current_batch['is_paused']: await asyncio.sleep(1)]: one
    arrival per sleep. When there are no more, the task stays parked. *)
Fixpoint wait_while_paused (ticks : list arrival) : M unit :=
  fun b =>
    if is_paused b then
      match ticks with
      | [] => (Pending, b, [])
      | a :: ticks' => (at_await a ;; wait_while_paused ticks') b
      end
    else ret tt b.

(** [current_batch['remaining'].remove(url)]. *)
Definition remove_link (url : string) : M unit :=
  b <- get ;;
  match list_remove url (remaining b) with
  | Some l => modify (set_remaining l)
  | None => raise (Exception "list.remove(x): x not in list")
  end.

Inductive flow :=
| Continue
| Break.

(** The body of [while current_batch['remaining']]. *)
Definition iteration (e : item_env) : M flow :=
  wait_while_paused (sleeps e) ;;
  b <- get ;;
  if negb (is_processing b) then ret Break
  else
    match remaining b with
    | [] => raise (Exception "list index out of range")
    | url :: _ =>
        if negb (is_url url) then
          remove_link url ;;
          ret Continue
        else
          _ <- process_single_link e url ;;
          remove_link url ;;
          ret Continue
    end.

(** The [while] loop, one environment per iteration. With no environment
    left and links remaining, the observation ends with the loop alive. *)
Fixpoint while_remaining (es : list item_env) : M unit :=
  fun b =>
    if nonempty (remaining b) then
      match es with
      | [] => (Pending, b, [])
      | e :: es' =>
          (c <- iteration e ;;
           match c with
           | Continue => while_remaining es'
           | Break => ret tt
           end) b
      end
    else ret tt b.

(** The final report of [process_batch]. *)
Definition final_report (w : loop_env) : M unit :=
  b <- get ;;
  if is_processing b then
    match start_time b with
    | None => raise (Exception "unsupported operand type(s) for -")
    | Some t0 =>
        at_await (arrive_final w) ;;
        match io_final_error w with
        | Some msg => raise (Exception msg)
        | None =>
            emit (SummarySent (processed b) (len (failed b)) (now_end w - t0))
        end
    end
  else ret tt.

(** The [try] block of [process_batch] with its two [except] clauses. *)
Definition guarded_loop (w : loop_env) (es : list item_env) : M unit :=
  try_catch
    (while_remaining es ;;
     final_report w)
    (fun x =>
       match x with
       | CancelledError => ret tt
       | Exception msg =>
           at_await (arrive_fatal w) ;;
           match io_fatal_error w with
           | Some msg' => raise (Exception msg')
           | None => emit (FatalSent msg)
           end
       end).

(** [process_batch]. *)
Definition process_batch (w : loop_env) (es : list item_env) : M unit :=
  modify (set_is_processing true) ;;
  modify (set_start_time (Some (now_start w))) ;;
  try_finally
    (guarded_loop w es)
    (modify (set_is_processing false) ;;
     modify (set_status_message_id None)).

(** ** The bot and its command handlers *)

(** [self.processing_task]: [None], a task created and not yet started, a
    task suspended in one of its awaits, or a task that is done. *)
Inductive task_state :=
| NoTask
| Scheduled
| Suspended
| Finished.

Record bot := mkBot {
  current_batch : batch;
  processing_task : task_state
}.

Definition initial_bot : bot := mkBot initial_batch NoTask.

(** [if self.processing_task and not self.processing_task.done():
    cancel(); await]. A suspended task unwinds through the
    [except CancelledError] and [finally] clauses of [process_batch]; a task
    that never started is dropped without running. *)
Definition cancel_and_await (s : bot) : bot :=
  match processing_task s with
  | Suspended =>
      mkBot (set_status_message_id None
               (set_is_processing false (current_batch s))) Finished
  | Scheduled => mkBot (current_batch s) Finished
  | NoTask => s
  | Finished => s
  end.

(** The dictionary that [clear_queue] writes over [current_batch]. *)
Definition reset_batch : batch :=
  mkBatch [] 0 [] [] None None None false false None 0 no_caption.

(** [clear_queue]. *)
Definition clear_queue (s : bot) : bot * trace :=
  if negb (nonempty (remaining (current_batch s))) then
    (s, [Replied RQueueEmpty])
  else
    let s1 := cancel_and_await s in
    let count := len (remaining (current_batch s1)) in
    (mkBot reset_batch (processing_task s1), [Replied (RCleared count)]).

(** Nothing runs while a handler awaits its reply: the handler finds the
    bot as it left it. This is always so when no task is live. *)
Definition idle (s : bot) : bot := s.

(** [skip_links], from the parsed count on. When the whole queue is to be
    skipped, the reply is awaited before [clear_queue] is called, and
    [clear_queue] looks at [current_batch] afresh: [during] is what the
    event loop made of the bot while the reply was awaited. In the other
    branch nothing is awaited between the size test and the cancellation,
    and no task is live while the document of the skipped links is sent;
    the document, like every reply, is taken as delivered, so the handler
    goes on to restart the loop. *)
Definition skip_links (during : bot -> bot) (skip_count : Z) (s : bot)
    : bot * trace :=
  let b := current_batch s in
  if skip_count <=? 0 then (s, [Replied RSkipNotPositive])
  else if negb (is_processing b) then (s, [Replied RSkipNoBatch])
  else if len (remaining b) <=? skip_count then
    match clear_queue (during s) with
    | (s', t) =>
        (s', Replied (RSkipCancelling skip_count (len (remaining b))) :: t)
    end
  else
    let s1 := cancel_and_await s in
    let b1 := current_batch s1 in
    let skipped_links := firstn (Z.to_nat skip_count) (remaining b1) in
    let b2 := set_remaining (skipn (Z.to_nat skip_count) (remaining b1)) b1 in
    let b3 := set_processed (processed b2 + skip_count) b2 in
    let doc := SkippedDoc skipped_links skip_count (processed b3)
                 (len (all_links b3)) (len (remaining b3)) in
    (mkBot (set_is_processing true b3) Scheduled,
     [doc; Replied (RSkipResumed (skip_count + 1))]).

(** The batch and trace of a notifier call made from a handler. *)
Definition run_status (delivered : option Z) (t : status_text) (b : batch)
    : batch * trace :=
  match update_status_message nobody delivered t b with
  | (_, b', tr) => (b', tr)
  end.

(** [pause_processing]. *)
Definition pause_processing (delivered : option Z) (s : bot) : bot * trace :=
  let b := current_batch s in
  if negb (is_processing b) then (s, [Replied RPauseNoProcessing])
  else if is_paused b then (s, [Replied RPauseAlready])
  else
    let b1 := set_is_paused true b in
    match run_status delivered
            (StPaused (processed b1) (len (all_links b1))
               (last_processed_link b1)) b1 with
    | (b2, t) => (mkBot b2 (processing_task s), t ++ [Replied RPaused])
    end.

(** [resume_processing]. *)
Definition resume_processing (delivered : option Z) (s : bot) : bot * trace :=
  let b := current_batch s in
  if negb (is_paused b) then (s, [Replied RResumeNotPaused])
  else
    let b1 := set_is_paused false b in
    let restart := negb (is_processing b1) in
    let b2 := if restart then set_is_processing true b1 else b1 in
    let task := if restart then Scheduled else processing_task s in
    match run_status delivered
            (StResuming (processed b2) (len (all_links b2))
               (hd_error (remaining b2))) b2 with
    | (b3, t) => (mkBot b3 task, t ++ [Replied RResumed])
    end.

(** [set_caption], from the parsed count and the joined text on. *)
Definition set_caption (count : Z) (caption_text : string) (s : bot)
    : bot * trace :=
  if count <=? 0 then (s, [Replied RCaptionNotPositive])
  else
    (mkBot (set_caption_settings (mkCaption true count (Some caption_text))
              (current_batch s)) (processing_task s),
     [Replied (RCaptionSet count caption_text)]).

(** [show_remain]. *)
Definition show_remain (s : bot) : bot * trace :=
  let b := current_batch s in
  let remain_count := len (remaining b) in
  if remain_count =? 0 then (s, [Replied RNoRemaining])
  else
    (s, [RemainDoc (remaining b) (processed b) (len (all_links b))
           remain_count (last_processed_link b)]).

(** [add_links_to_queue], for the operator [uid]. When links join an
    existing batch, the reply is awaited between the two [extend] calls and
    the restart test: [during] is what the event loop made of the bot while
    the reply was awaited. *)
Definition add_links_to_queue (during : bot -> bot) (links : list string)
    (uid : Z) (s : bot) : bot * trace :=
  let b := current_batch s in
  if negb (nonempty (all_links b)) then
    let b1 := mkBatch links 0 [] links (start_time b) (Some uid) None
                true false None 0 no_caption in
    let task := match processing_task s with
                | NoTask | Finished => Scheduled
                | live => live
                end in
    (mkBot b1 task, [Replied (RBatchStarting (len links))])
  else
    let b1 := set_all_links (all_links b ++ links) b in
    let b2 := set_remaining (remaining b1 ++ links) b1 in
    let total_links := len (all_links b2) in
    let said := Replied (RLinksAdded (len links) total_links
                           (processed b2 + 1)) in
    let s3 := during (mkBot b2 (processing_task s)) in
    let b3 := current_batch s3 in
    if negb (is_processing b3) && nonempty (remaining b3) then
      (mkBot (set_is_processing true b3) Scheduled, [said])
    else (s3, [said]).

(** The operator's commands, with what the handler needs from outside. *)
Inductive command :=
| Enqueue (links : list string) (uid : Z)
| Pause (delivered : option Z)
| Resume (delivered : option Z)
| Clear
| Skip (n : Z)
| SetCaption (n : Z) (text : string)
| ShowRemain.

(** A handler run from its first line to its last with the task standing
    still. *)
Definition handle (c : command) (s : bot) : bot * trace :=
  match c with
  | Enqueue links uid => add_links_to_queue idle links uid s
  | Pause d => pause_processing d s
  | Resume d => resume_processing d s
  | Clear => clear_queue s
  | Skip n => skip_links idle n s
  | SetCaption n text => set_caption n text s
  | ShowRemain => show_remain s
  end.

(** ** Handlers that run while the task is suspended *)

(** The commands that do not cancel the task. *)
Definition benign (c : command) : bool :=
  match c with
  | Clear | Skip _ => false
  | _ => true
  end.

(** The effect on [current_batch] of a handler that runs during one of the
    task's awaits. What the handler itself sends is not part of the task's
    trace. *)
Definition during_await (c : command) (b : batch) : batch :=
  current_batch (fst (handle c (mkBot b Suspended))).

Definition handled (cs : list command) : arrival :=
  Handler (fun b => fold_left (fun b1 c => during_await c b1) cs b).

Definition benign_arrival (a : arrival) : Prop :=
  exists cs, forallb benign cs = true /\ a = handled cs.

(** Every interruption of the iteration is a non-cancelling handler. *)
Definition operator_driven (e : item_env) : Prop :=
  (forall s, benign_arrival (arrive e s)) /\ Forall benign_arrival (sleeps e).

(** States the bot can be in between two handlers: handlers run while no
    task is live, and a scheduled task runs to its end while the operator's
    non-cancelling handlers arrive at its awaits. *)
Inductive reachable : bot -> Prop :=
| reach_initial : reachable initial_bot
| reach_handle (s : bot) (c : command) :
    reachable s ->
    processing_task s = NoTask \/ processing_task s = Finished ->
    reachable (fst (handle c s))
| reach_task (s : bot) (w : loop_env) (es : list item_env)
    (r : result unit) (b' : batch) (t : trace) :
    reachable s ->
    processing_task s = Scheduled ->
    Forall operator_driven es ->
    benign_arrival (arrive_final w) ->
    benign_arrival (arrive_fatal w) ->
    process_batch w es (current_batch s) = (r, b', t) ->
    r <> Pending ->
    reachable (mkBot b' Finished).

(** * Vocabulary *)

(** ** Reading traces *)

Definition is_status (x : io) : bool :=
  match x with
  | StatusSent _ _ | StatusEdited _ _ => true
  | _ => false
  end.

(** The trace without the live status traffic. *)
Definition events (t : trace) : trace := filter (fun x => negb (is_status x)) t.

Definition is_completion (x : io) : bool :=
  match x with
  | CompletionSent _ _ _ _ _ _ => true
  | _ => false
  end.

Definition is_report (x : io) : bool :=
  match x with
  | RemainSent _ _ _ _ _ => true
  | _ => false
  end.

Definition is_upload (x : io) : bool :=
  match x with
  | VideoSent _ _ | VideoFailed _ _ _ => true
  | _ => false
  end.

Definition is_notice (x : io) : bool :=
  match x with
  | NoticeSent => true
  | _ => false
  end.

(** Completion events, auto-reports, upload attempts and caption notices
    of a trace, in order. *)
Definition completions (t : trace) : trace := filter is_completion t.
Definition reports (t : trace) : trace := filter is_report t.
Definition uploads (t : trace) : trace := filter is_upload t.
Definition notices (t : trace) : trace := filter is_notice t.

(** ** The notifier as functions of the batch *)

(** The two tests between a delivered completion event and an auto-report:
    the one in [send_completion_notification] and those in
    [send_remain_links]. *)
Definition auto_report_due (b : batch) : bool :=
  (0 <? processed b) && (processed b mod 5 =? 0)
  && nonempty (remaining b) && truthy (user_id b)
  && (5 <=? processed b - last_auto_send b).

Definition completion_batch (e : item_env) (b : batch) : batch :=
  match io_completion_error e with
  | Some _ => b
  | None =>
      if auto_report_due b
      then set_last_auto_send (processed b) (set_status_message_id None b)
      else set_status_message_id None b
  end.

Definition completion_events (e : item_env) (url : string) (success : bool)
    (msg : string) (b : batch) : trace :=
  match io_completion_error e with
  | Some _ => []
  | None =>
      CompletionSent url success msg (processed b) (len (all_links b))
        (len (all_links b) - processed b)
      :: (if auto_report_due b
          then match io_remain_error e with
               | Some _ => []
               | None => [RemainSent (remaining b) (processed b)
                            (len (all_links b)) (len (remaining b))
                            (last_processed_link b)]
               end
          else [])
  end.

(** ** The caption block as functions of the batch *)

(** Whether the notice falls due at this upload attempt, the caption handed
    to the upload, and the batch after the block. *)
Definition notice_due (b : batch) : bool :=
  cap_active (caption b) && (cap_remaining (caption b) - 1 <=? 0).

Definition caption_for (b : batch) : option string :=
  if cap_active (caption b) then cap_text (caption b) else None.

Definition spend_caption (b : batch) : batch :=
  if cap_active (caption b) then
    set_caption_settings
      (mkCaption (negb (cap_remaining (caption b) - 1 <=? 0))
         (cap_remaining (caption b) - 1) (cap_text (caption b))) b
  else b.




(** The reason with which the attempt on a link fails, if it does: the
    download, opening the file, the caption notice, or the upload. *)
Definition failure_reason (e : item_env) (b : batch) : option string :=
  match io_fetch e with
  | FetchNone => Some "Video exceeds 49MB limit"%string
  | FetchPath false => Some "Download failed"%string
  | FetchPath true =>
      match io_open_error e with
      | Some msg => Some msg
      | None =>
          if notice_due b
          then match io_notice_error e with
               | Some msg => Some msg
               | None => io_video_error e
               end
          else io_video_error e
      end
  end.


(** ** Invariant and quiet runs *)

(** [isPaused] implies [isActive]. *)
Definition paused_means_active (b : batch) : Prop :=
  is_paused b = true -> is_processing b = true.

(** Nothing arrives during the iteration, its sleeps included. *)
Definition silent (e : item_env) : Prop :=
  quiet e /\ Forall (fun a => a = nobody) (sleeps e).

Definition silent_world (w : loop_env) : Prop :=
  arrive_final w = nobody /\ arrive_fatal w = nobody.

(** A computation that leaves a field of the batch as it finds it. *)
Definition keeps {A X : Type} (f : batch -> X) (m : M A) : Prop :=
  forall b, f (snd (fst (m b))) = f b.

(** At this await nothing arrives, or the task is cancelled. *)
Definition still (a : arrival) : Prop := a = nobody \/ a = Cancel.

Definition cancellable (e : item_env) : Prop := forall s, still (arrive e s).

(** No handler runs during the iteration, its sleeps included; the task
    may be cancelled at any of its awaits. *)
Definition undisturbed (e : item_env) : Prop :=
  cancellable e /\ Forall still (sleeps e).

(** ** The task as the handlers meet it *)

(** The batch with which the [try] block of [process_batch] starts. *)
Definition started (w : loop_env) (b : batch) : batch :=
  set_start_time (Some (now_start w)) (set_is_processing true b).

(** The batch as the [finally] clause of [process_batch] leaves it. *)
Definition exited (b : batch) : batch :=
  set_status_message_id None (set_is_processing false b).

(** The batch that a handler cancelling the task works on once it has
    awaited the task: a task suspended in one of its awaits has gone through
    its [finally] clause, any other has not run. *)
Definition after_cancel (s : bot) : batch :=
  match processing_task s with
  | Suspended => exited (current_batch s)
  | _ => current_batch s
  end.

(** No task is running or waiting to run. *)
Definition no_live_task (s : bot) : Prop :=
  processing_task s = NoTask \/ processing_task s = Finished.

(** ** Scenarios *)

Local Open Scope string_scope.

(** Everything is delivered; the live status message gets id 7. *)
Definition calm : item_env :=
  mkItemEnv [] (fun _ => nobody) (fun _ => Some 7) (FetchPath true)
    None None None None None.

(** The download returns [None]. *)
Definition too_large : item_env :=
  mkItemEnv [] (fun _ => nobody) (fun _ => Some 7) FetchNone
    None None None None None.

(** The upload raises. *)
Definition upload_fails : item_env :=
  mkItemEnv [] (fun _ => nobody) (fun _ => Some 7) (FetchPath true)
    None None (Some "Timed out") None None.

(** The operator's [/stopnow] is handled while the upload is awaited. *)
Definition pause_during_upload : item_env :=
  mkItemEnv []
    (fun s => match s with
              | AtVideo => handled [Pause (Some 7)]
              | _ => handled []
              end)
    (fun _ => Some 7) (FetchPath true) None None None None None.

Definition world : loop_env := mkLoopEnv 100 160 (handled []) None (handled []) None.

Definition operator : Z := 42.

Definition enqueued (links : list string) : bot :=
  fst (add_links_to_queue idle links operator initial_bot).

(** Scenario A of the specification. *)
Definition scenario_a : list string := ["http://a"; "not-a-url"; "http://b"].

Definition five_links : list string :=
  ["http://1"; "http://2"; "http://3"; "http://4"; "http://5"].

Definition six_links : list string := five_links ++ ["http://6"].

Definition ten_links : list string :=
  five_links ++ ["http://6"; "http://7"; "http://8"; "http://9"; "http://10"].

(** Two of ten links are done and the third is in flight. *)
Definition two_done : bot :=
  mkBot (mkBatch ten_links 2 [] (skipn 2 ten_links) (Some 100) (Some operator)
           (Some "http://3") true false (Some 7) 0 no_caption)
        Suspended.

Definition three_links : list string := ["http://1"; "http://2"; "http://3"].

(** The loop is back at its head after two of three links. *)
Definition third_link_next : batch :=
  mkBatch three_links 2 [] ["http://3"] (Some 100) (Some operator)
    (Some "http://2") true false None 0 no_caption.


(** The loop is back at its head after four of five links. *)
Definition fifth_link_next : batch :=
  mkBatch five_links 4 [] ["http://5"] (Some 100) (Some operator)
    (Some "http://4") true false None 0 no_caption.

(** The runs of the scenarios. *)
Definition size_exceeded_run : result flow * batch * trace :=
  iteration too_large third_link_next.

Definition scenario_a_run : result unit * batch * trace :=
  process_batch world [calm; calm; calm] (current_batch (enqueued scenario_a)).

Definition five_links_run : result unit * batch * trace :=
  process_batch world [calm; calm; calm; calm; calm]
    (current_batch (enqueued five_links)).

(** Scenario B of the specification. *)
Definition six_links_run : result unit * batch * trace :=
  process_batch world [calm; calm; calm; calm; calm; calm]
    (current_batch (enqueued six_links)).

Definition skip_seven : bot * trace := skip_links idle 7 two_done.

Definition failure_after_skip : result unit * batch * trace :=
  process_batch world [too_large] (current_batch (fst skip_seven)).


(** A single link is queued, the operator pauses during its upload, and
    the loop runs to its end. *)
Definition paused_at_exit : bot :=
  mkBot (snd (fst (process_batch world [pause_during_upload]
                     (current_batch (enqueued ["http://a"])))))
        Finished.

(** The upload is cancelled while it is awaited. *)
Definition cancel_during_upload : item_env :=
  mkItemEnv []
    (fun s => match s with
              | AtVideo => Cancel
              | _ => nobody
              end)
    (fun _ => Some 7) (FetchPath true) None None None None None.

(** The task is cancelled in the second sleep of the pause loop. *)
Definition cancel_while_paused : item_env :=
  mkItemEnv [nobody; Cancel] (fun _ => nobody) (fun _ => Some 7)
    (FetchPath true) None None None None None.

(** The batch is overwritten with the dictionary of [clear_queue] while
    the upload is awaited, and the task is not cancelled. *)
Definition reset_during_upload : item_env :=
  mkItemEnv []
    (fun s => match s with
              | AtVideo => Handler (fun _ => reset_batch)
              | _ => nobody
              end)
    (fun _ => Some 7) (FetchPath true) None None None None None.

Definition unguarded_reset_run : result unit * batch * trace :=
  process_batch world [reset_during_upload]
    (current_batch (enqueued ["http://a"])).

(** The bot while the upload of the first of [links] is awaited: the batch
    is the one in which a cancellation finds the task there. *)
Definition first_upload_awaited (links : list string) : bot :=
  mkBot (snd (fst (while_remaining [cancel_during_upload]
                     (started world (current_batch (enqueued links))))))
        Suspended.

(** The same task left alone until it has worked off its only link. *)
Definition only_link_done : bot :=
  mkBot (snd (fst (process_batch world [calm]
                     (current_batch (enqueued ["http://a"])))))
        Finished.

(** The batch has been cleared while a link was in flight. *)
Definition cleared : bot := fst (clear_queue two_done).

(** Ten links are running and paused. *)
Definition paused_running : bot :=
  mkBot (set_is_paused true (current_batch two_done)) Suspended.

Local Close Scope string_scope.

(** * The rest of [main.py] *)

(** ** The downloader *)

(** [MAX_VIDEO_SIZE]. *)
Definition MAX_VIDEO_SIZE : Z := 49 * 1024 * 1024.

(** What [ydl.extract_info(url, download=False)] gives to
    [check_video_size]: an exception, a falsy [info], an [info] without
    ['filesize'], one whose ['filesize'] is [None] (the comparison then
    raises [TypeError]), or one with a size. *)
Inductive probe :=
| ProbeRaises
| ProbeNothing
| ProbeNoSize
| ProbeSizeNone
| ProbeSize (filesize : Z).

(** What [ydl.extract_info(url, download=True)] followed by
    [downloaded_file.stat()] gives: an exception from either, a falsy
    [info], or a file on disk with its [st_size]. *)
Inductive transfer :=
| TransferRaises
| TransferNothing
| TransferFile (st_size : Z).

(** What the pytube fallback finds: an exception while opening the video
    or listing its streams, no progressive mp4 stream, or a stream with its
    announced [filesize] and, when [stream.download] and [stat] go through,
    the [st_size] of the file. *)
Inductive stream :=
| StreamRaises
| NoStream
| Stream (filesize : Z) (file : option Z).

Inductive library :=
| YtDlp
| Pytube.

(** What [get_highest_quality_video] does in the temporary directory, as
    far as it knows: the files whose size it read after the transfer, and
    the files it removed. *)
Inductive disk :=
| Written (lib : library) (st_size : Z)
| Removed (st_size : Z).

(** The outside world of one download. *)
Record download_env := mkDownloadEnv {
  has_yt_dlp : bool;
  probed : probe;
  yt_dlp_file : transfer;
  has_pytube : bool;
  pytube_stream : stream;
  unlink_raises : bool
}.

(** [needle in hay]. *)
Definition contains (needle hay : string) : bool :=
  match String.index 0 needle hay with
  | Some _ => true
  | None => false
  end.

(** [check_video_size]: every failure, the missing import included, lets
    the download proceed. *)
Definition check_video_size (w : download_env) : bool :=
  if has_yt_dlp w then
    match probed w with
    | ProbeSize filesize => filesize <=? MAX_VIDEO_SIZE
    | ProbeRaises | ProbeNothing | ProbeNoSize | ProbeSizeNone => true
    end
  else true.

(** [get_highest_quality_video]: the size of the file whose path is
    returned, or [None], and what happened on disk. Every exception ends in
    the outer [except Exception] and gives [None]. *)
Definition get_highest_quality_video (w : download_env) (url : string)
    : option Z * list disk :=
  if negb (check_video_size w) then (None, [])
  else if has_yt_dlp w then
    match yt_dlp_file w with
    | TransferRaises => (None, [])
    | TransferNothing => (None, [])
    | TransferFile st_size =>
        if MAX_VIDEO_SIZE <? st_size then
          if unlink_raises w then (None, [Written YtDlp st_size])
          else (None, [Written YtDlp st_size; Removed st_size])
        else (Some st_size, [Written YtDlp st_size])
    end
  else if negb (has_pytube w) then (None, [])
  else if contains "youtube.com" url || contains "youtu.be" url then
    match pytube_stream w with
    | StreamRaises => (None, [])
    | NoStream => (None, [])
    | Stream filesize file =>
        if MAX_VIDEO_SIZE <? filesize then (None, [])
        else
          match file with
          | None => (None, [])
          | Some st_size =>
              if MAX_VIDEO_SIZE <? st_size then
                if unlink_raises w then (None, [Written Pytube st_size])
                else (None, [Written Pytube st_size; Removed st_size])
              else (Some st_size, [Written Pytube st_size])
          end
    end
  else (None, []).

(** What [process_single_link] sees of the download: [None], or a path
    that does or does not exist by the time it looks. *)
Definition seen_by_link (r : option Z) (still_there : bool) : fetch_result :=
  match r with
  | None => FetchNone
  | Some _ => FetchPath still_there
  end.

(** ** Arguments of [/skip] and [/cap] *)

(** What a handler of the command surface tells the operator: nothing,
    the usage text, an error text, or the replies of the handler proper;
    [Raised] when the handler ends in an exception that it does not catch,
    before it has replied. *)
Inductive answer :=
| Silent
| Usage
| Failure
| Answered (t : trace)
| Raised.

Section Counts.

(** [str.isdigit] and [int]. [isdigit] holds of the non-empty texts all of
    whose characters have the Unicode property Digit or Decimal, in any
    script; [int] gives the value of a text of decimal digits of any script
    and raises [ValueError] on the other digits (a superscript two passes
    [isdigit] and fails [int]): [None] is that exception. *)
Variable isdigit : string -> bool.
Variable int : string -> option Z.

(** [skip_links], from [context.args] on. *)
Definition skip_command (during : bot -> bot) (args : list string) (s : bot)
    : bot * answer :=
  match args with
  | [] => (s, Usage)
  | a :: _ =>
      if negb (isdigit a) then (s, Usage)
      else
        match int a with
        | None => (s, Raised)
        | Some skip_count =>
            match skip_links during skip_count s with
            | (s', t) => (s', Answered t)
            end
        end
  end.

(** [set_caption], from [context.args] on. *)
Definition cap_command (args : list string) (s : bot) : bot * answer :=
  match args with
  | [] => (s, Usage)
  | [_] => (s, Usage)
  | a :: words =>
      if negb (isdigit a) then (s, Usage)
      else
        match int a with
        | None => (s, Raised)
        | Some count =>
            match set_caption count (String.concat " " words) s with
            | (s', t) => (s', Answered t)
            end
        end
  end.

End Counts.

(** The two functions on texts within ASCII. The value of a decimal digit,
    by its code: *)
Definition digit_value (c : ascii) : option Z :=
  let code := Z.of_nat (nat_of_ascii c) in
  if (48 <=? code) && (code <=? 57) then Some (code - 48) else None.

Fixpoint all_digits (s : string) : bool :=
  match s with
  | EmptyString => true
  | String c s' =>
      match digit_value c with
      | Some _ => all_digits s'
      | None => false
      end
  end.

(** [str.isdigit()] of a text within ASCII. *)
Definition ascii_isdigit (s : string) : bool :=
  match s with
  | EmptyString => false
  | String _ _ => all_digits s
  end.

Fixpoint int_from (acc : Z) (s : string) : Z :=
  match s with
  | EmptyString => acc
  | String c s' =>
      match digit_value c with
      | Some d => int_from (10 * acc + d) s'
      | None => acc
      end
  end.

(** [int(s)] of a non-empty text of ASCII digits. The handlers call [int]
    on no other text, and there it is left at [None]. *)
Definition ascii_int (s : string) : option Z :=
  if ascii_isdigit s then Some (int_from 0 s) else None.

(** ** Incoming messages *)

Definition byte (c : ascii) : nat := nat_of_ascii c.

(** The whitespace of [str.strip()]: the code points for which
    [str.isspace] holds, by the bytes of their UTF-8 encoding. Within ASCII
    these are U+0009 to U+000D and U+001C to U+0020. *)
Definition space1 (c : ascii) : bool :=
  (Nat.leb 9 (byte c) && Nat.leb (byte c) 13)
  || (Nat.leb 28 (byte c) && Nat.leb (byte c) 32).

(** U+0085 and U+00A0. *)
Definition space2 (c1 c2 : ascii) : bool :=
  Nat.eqb (byte c1) 194 && (Nat.eqb (byte c2) 133 || Nat.eqb (byte c2) 160).

(** U+1680, U+2000 to U+200A, U+2028, U+2029, U+202F, U+205F and U+3000. *)
Definition space3 (c1 c2 c3 : ascii) : bool :=
  (Nat.eqb (byte c1) 225 && Nat.eqb (byte c2) 154 && Nat.eqb (byte c3) 128)
  || (Nat.eqb (byte c1) 226 && Nat.eqb (byte c2) 128
      && ((Nat.leb 128 (byte c3) && Nat.leb (byte c3) 138)
          || Nat.eqb (byte c3) 168 || Nat.eqb (byte c3) 169
          || Nat.eqb (byte c3) 175))
  || (Nat.eqb (byte c1) 226 && Nat.eqb (byte c2) 129 && Nat.eqb (byte c3) 159)
  || (Nat.eqb (byte c1) 227 && Nat.eqb (byte c2) 128 && Nat.eqb (byte c3) 128).

(** [s.lstrip()]: the whitespace characters at the head of [s] are dropped,
    whatever their width. *)
Fixpoint lstrip (s : string) : string :=
  match s with
  | EmptyString => EmptyString
  | String c1 s1 =>
      if space1 c1 then lstrip s1
      else
        match s1 with
        | EmptyString => s
        | String c2 s2 =>
            if space2 c1 c2 then lstrip s2
            else
              match s2 with
              | EmptyString => s
              | String c3 s3 => if space3 c1 c2 c3 then lstrip s3 else s
              end
        end
  end.

(** The text consists of whitespace only. *)
Definition blank (s : string) : bool :=
  match lstrip s with
  | EmptyString => true
  | String _ _ => false
  end.

(** [s.rstrip()]: the text is cut where nothing but whitespace follows. *)
Fixpoint rstrip (s : string) : string :=
  match s with
  | EmptyString => EmptyString
  | String c s' => if blank s then EmptyString else String c (rstrip s')
  end.

(** [s.strip()]. *)
Definition strip (s : string) : string := rstrip (lstrip s).

Definition nonblank (s : string) : bool :=
  match s with
  | EmptyString => false
  | String _ _ => true
  end.

(** An uploaded document: its MIME type and, when it can be fetched and
    read, the lines [f.readlines()] returns. *)
Inductive upload :=
| Upload (mime_type : string) (lines : option (list string)).

Record message := mkMessage {
  document : option upload;
  text : option string
}.

(** [handle_message] for a sender that passed [is_admin]. The file is
    fetched and read before [current_batch] is looked at; [during] is passed
    on to [add_links_to_queue]. *)
Definition handle_message (during : bot -> bot) (sender : Z) (m : message)
    (s : bot) : bot * answer :=
  let as_text :=
    match text m with
    | Some body =>
        if is_url body then
          match add_links_to_queue during [strip body] sender s with
          | (s', t) => (s', Answered t)
          end
        else (s, Silent)
    | None => (s, Silent)
    end in
  match document m with
  | Some (Upload mime_type lines) =>
      if String.eqb mime_type "text/plain" then
        match lines with
        | None => (s, Failure)
        | Some raw =>
            match add_links_to_queue during (filter nonblank (map strip raw))
                    sender s with
            | (s', t) => (s', Answered t)
            end
        end
      else as_text
  | None => as_text
  end.

(** ** Vocabulary of the further properties *)

(** [remaining] is what is left of [all_links]. *)
Definition queue_suffix (b : batch) : Prop :=
  exists gone, all_links b = gone ++ remaining b.

(** The links accounted for never outnumber the links received. *)
Definition within_total (b : batch) : Prop :=
  processed b + len (failed b) + len (remaining b) <= len (all_links b).

Definition queue_invariant (b : batch) : Prop :=
  queue_suffix b /\ within_total b.

(** A computation all of whose outputs satisfy [P]. *)
Definition emits {A : Type} (P : io -> Prop) (m : M A) : Prop :=
  forall b, Forall P (snd (m b)).

(** What the processing of a link can send or do. *)
Definition link_output (x : io) : bool :=
  match x with
  | StatusSent _ _ | StatusEdited _ _ | Fetched _ _ | NoticeSent
  | VideoSent _ _ | VideoFailed _ _ _ | CompletionSent _ _ _ _ _ _
  | RemainSent _ _ _ _ _ | Unlinked _ => true
  | _ => false
  end.

Definition is_summary (x : io) : bool :=
  match x with
  | SummarySent _ _ _ => true
  | _ => false
  end.

Definition is_fatal (x : io) : bool :=
  match x with
  | FatalSent _ => true
  | _ => false
  end.

(** A byte of a visible ASCII character: no whitespace character starts
    with it. *)
Definition visible (c : ascii) : bool :=
  Nat.ltb 32 (byte c) && Nat.ltb (byte c) 127.

Fixpoint all_visible (s : string) : bool :=
  match s with
  | EmptyString => true
  | String c s' => visible c && all_visible s'
  end.

(** Only pytube is installed and nothing goes wrong. *)
Definition pytube_only : download_env :=
  mkDownloadEnv false ProbeRaises TransferRaises true
    (Stream 1000 (Some 1000)) false.

(** yt-dlp announces a size one byte over the limit. *)
Definition announced_too_large : download_env :=
  mkDownloadEnv true (ProbeSize (MAX_VIDEO_SIZE + 1)) (TransferFile 10) true
    NoStream false.

(** yt-dlp announces nothing and writes a file one byte over the limit. *)
Definition written_too_large : download_env :=
  mkDownloadEnv true ProbeNoSize (TransferFile (MAX_VIDEO_SIZE + 1)) true
    NoStream false.

(** * Lemmas *)

Arguments len : simpl never.

(** ** Traces *)

Section Views.

Variable p : io -> bool.
Hypothesis p_status : forall x, is_status x = true -> p x = false.

Lemma view_status t : events t = [] -> filter p t = [].
Proof.
  induction t as [|x t IH]; [reflexivity|].
  unfold events in *. simpl.
  destruct (is_status x) eqn:Hx; simpl; [|discriminate].
  intros H. rewrite (p_status x Hx). auto.
Qed.

End Views.

Lemma completions_status t : events t = [] -> completions t = [].
Proof. apply view_status. intros []; simpl; congruence. Qed.

Lemma reports_status t : events t = [] -> reports t = [].
Proof. apply view_status. intros []; simpl; congruence. Qed.

Lemma uploads_status t : events t = [] -> uploads t = [].
Proof. apply view_status. intros []; simpl; congruence. Qed.

Lemma notices_status t : events t = [] -> notices t = [].
Proof. apply view_status. intros []; simpl; congruence. Qed.

Lemma completions_app t1 t2 :
  completions (t1 ++ t2) = completions t1 ++ completions t2.
Proof. apply filter_app. Qed.

Lemma reports_app t1 t2 : reports (t1 ++ t2) = reports t1 ++ reports t2.
Proof. apply filter_app. Qed.

Lemma uploads_app t1 t2 : uploads (t1 ++ t2) = uploads t1 ++ uploads t2.
Proof. apply filter_app. Qed.

Lemma notices_app t1 t2 : notices (t1 ++ t2) = notices t1 ++ notices t2.
Proof. apply filter_app. Qed.

Lemma completions_cons x t :
  completions (x :: t)
  = if is_completion x then x :: completions t else completions t.
Proof. reflexivity. Qed.

Lemma reports_cons x t :
  reports (x :: t) = if is_report x then x :: reports t else reports t.
Proof. reflexivity. Qed.

Lemma uploads_cons x t :
  uploads (x :: t) = if is_upload x then x :: uploads t else uploads t.
Proof. reflexivity. Qed.

Lemma notices_cons x t :
  notices (x :: t) = if is_notice x then x :: notices t else notices t.
Proof. reflexivity. Qed.

(** ** The monad *)

Lemma bind_run {A B : Type} (m : M A) (k : A -> M B) b :
  bind m k b
  = match m b with
    | (Ok a, b1, t1) =>
        match k a b1 with (r, b2, t2) => (r, b2, t1 ++ t2) end
    | (Raise x, b1, t1) => (Raise x, b1, t1)
    | (Pending, b1, t1) => (Pending, b1, t1)
    end.
Proof. reflexivity. Qed.

Lemma bind_ok {A B : Type} (m : M A) (k : A -> M B) b a b1 t1 :
  m b = (Ok a, b1, t1) ->
  bind m k b = match k a b1 with (r, b2, t2) => (r, b2, t1 ++ t2) end.
Proof. intros E. unfold bind. rewrite E. reflexivity. Qed.

(** ** Notifier *)

Lemma set_status_message_id_same b :
  set_status_message_id (status_message_id b) b = b.
Proof. destruct b; reflexivity. Qed.

Lemma update_status_message_nobody d t b :
  exists sid tr,
    update_status_message nobody d t b = (Ok tt, set_status_message_id sid b, tr)
    /\ events tr = [].
Proof.
  unfold update_status_message, bind, get, nobody, at_await, modify, emit, ret.
  cbv beta iota.
  destruct (truthy (status_message_id b)) eqn:Ht.
  - exists (status_message_id b). rewrite set_status_message_id_same.
    destruct d as [id|]; destruct (status_message_id b) as [sid|];
      simpl; eexists; split; reflexivity.
  - destruct d as [id|]; simpl.
    + exists (Some id); eexists; split; reflexivity.
    + exists (status_message_id b); eexists;
      rewrite set_status_message_id_same; split; reflexivity.
Qed.

Lemma status_quiet e ph t b :
  quiet e ->
  exists sid tr,
    status e ph t b = (Ok tt, set_status_message_id sid b, tr) /\ events tr = [].
Proof.
  intros Hq. unfold status. rewrite Hq. apply update_status_message_nobody.
Qed.

Lemma run_status_frame d t b :
  exists sid tr, run_status d t b = (set_status_message_id sid b, tr).
Proof.
  unfold run_status.
  destruct (update_status_message_nobody d t b) as (sid & tr & E & _).
  rewrite E. eauto.
Qed.

Lemma send_remain_links_quiet e b :
  quiet e ->
  send_remain_links e b
  = if nonempty (remaining b) && truthy (user_id b)
       && (5 <=? processed b - last_auto_send b)
    then match io_remain_error e with
         | Some msg => (Raise (Exception msg),
                        set_last_auto_send (processed b) b, [])
         | None => (Ok tt, set_last_auto_send (processed b) b,
                    [RemainSent (remaining b) (processed b)
                       (len (all_links b)) (len (remaining b))
                       (last_processed_link b)])
         end
    else (Ok tt, b, []).
Proof.
  intros Hq. unfold send_remain_links, bind, get. rewrite Hq.
  unfold nobody, at_await, modify, emit, raise, ret. cbn.
  destruct (nonempty (remaining b)); cbn; [|reflexivity].
  destruct (truthy (user_id b)); cbn; [|reflexivity].
  rewrite Z.leb_antisym.
  destruct (processed b - last_auto_send b <? 5); cbn; [reflexivity|].
  destruct (io_remain_error e); reflexivity.
Qed.

Lemma send_completion_quiet e url success msg b :
  quiet e ->
  send_completion_notification e url success msg b
  = (Ok tt, completion_batch e b, completion_events e url success msg b).
Proof.
  intros Hq.
  unfold send_completion_notification, send_remain_links, completion_batch,
    completion_events, auto_report_due, try_except, bind, get.
  rewrite !Hq. unfold nobody, at_await, modify, emit, raise, ret.
  destruct (io_completion_error e) as [m|]; simpl; [reflexivity|].
  destruct (0 <? processed b); simpl; [|reflexivity].
  destruct (processed b mod 5 =? 0); simpl; [|reflexivity].
  destruct (nonempty (remaining b)); simpl; [|reflexivity].
  destruct (truthy (user_id b)); simpl; [|reflexivity].
  rewrite Z.leb_antisym.
  destruct (processed b - last_auto_send b <? 5); simpl; [reflexivity|].
  destruct (io_remain_error e); reflexivity.
Qed.

Lemma completion_batch_frame e b :
  all_links (completion_batch e b) = all_links b
  /\ processed (completion_batch e b) = processed b
  /\ failed (completion_batch e b) = failed b
  /\ remaining (completion_batch e b) = remaining b
  /\ is_processing (completion_batch e b) = is_processing b
  /\ is_paused (completion_batch e b) = is_paused b
  /\ caption (completion_batch e b) = caption b.
Proof.
  unfold completion_batch.
  destruct (io_completion_error e); [|destruct (auto_report_due b)];
    cbn; repeat split; reflexivity.
Qed.

Lemma completions_completion_events e url success msg b :
  completions (completion_events e url success msg b)
  = match io_completion_error e with
    | Some _ => []
    | None => [CompletionSent url success msg (processed b)
                 (len (all_links b)) (len (all_links b) - processed b)]
    end.
Proof.
  unfold completion_events.
  destruct (io_completion_error e); [reflexivity|].
  destruct (auto_report_due b); [|reflexivity].
  destruct (io_remain_error e); reflexivity.
Qed.

Lemma uploads_completion_events e url success msg b :
  uploads (completion_events e url success msg b) = [].
Proof.
  unfold completion_events.
  destruct (io_completion_error e); [reflexivity|].
  destruct (auto_report_due b); [|reflexivity].
  destruct (io_remain_error e); reflexivity.
Qed.

Lemma notices_completion_events e url success msg b :
  notices (completion_events e url success msg b) = [].
Proof.
  unfold completion_events.
  destruct (io_completion_error e); [reflexivity|].
  destruct (auto_report_due b); [|reflexivity].
  destruct (io_remain_error e); reflexivity.
Qed.

Lemma reports_completion_events e url success msg b :
  reports (completion_events e url success msg b)
  = match io_completion_error e with
    | Some _ => []
    | None =>
        if auto_report_due b
        then match io_remain_error e with
             | Some _ => []
             | None => [RemainSent (remaining b) (processed b)
                          (len (all_links b)) (len (remaining b))
                          (last_processed_link b)]
             end
        else []
    end.
Proof.
  unfold completion_events.
  destruct (io_completion_error e); [reflexivity|].
  destruct (auto_report_due b); [|reflexivity].
  destruct (io_remain_error e); reflexivity.
Qed.

Lemma auto_report_due_spec b :
  auto_report_due b = true
  <-> 0 < processed b /\ processed b mod 5 = 0 /\ remaining b <> []
      /\ truthy (user_id b) = true /\ 5 <= processed b - last_auto_send b.
Proof.
  unfold auto_report_due.
  rewrite !andb_true_iff, Z.ltb_lt, Z.eqb_eq, Z.leb_le.
  assert (nonempty (remaining b) = true <-> remaining b <> []) as ->.
  { destruct (remaining b); simpl; split; congruence. }
  tauto.
Qed.

(** ** The caption block *)

Lemma take_caption_quiet e b :
  quiet e ->
  take_caption e b
  = if notice_due b then
      match io_notice_error e with
      | Some msg => (Raise (Exception msg), spend_caption b, [])
      | None => (Ok (caption_for b), spend_caption b, [NoticeSent])
      end
    else (Ok (caption_for b), spend_caption b, []).
Proof.
  intros Hq.
  unfold take_caption, notice_due, caption_for, spend_caption, bind, get.
  rewrite Hq. unfold nobody, at_await, modify, emit, raise, ret. cbn.
  destruct (cap_active (caption b)); cbn; [|reflexivity].
  destruct (cap_remaining (caption b) - 1 <=? 0); cbn; [|reflexivity].
  destruct (io_notice_error e); reflexivity.
Qed.

(** ** One link *)

Ltac step_status Hq :=
  unfold try_finally, try_except, try_catch;
  match goal with
  | |- context [bind (status ?e ?ph ?t) ?k ?b] =>
      let sid := fresh "sid" in
      let tr := fresh "tr" in
      let E := fresh "E" in
      let V := fresh "V" in
      destruct (status_quiet e ph t b Hq) as (sid & tr & E & V);
      rewrite (bind_ok (status e ph t) k b tt _ _ E); clear E; cbn
  end.

Ltac step_caption Hq :=
  unfold try_finally, try_except, try_catch;
  match goal with
  | |- context [bind (take_caption ?e) ?k ?b] =>
      rewrite (bind_run (take_caption e) k b), (take_caption_quiet e b Hq)
  end.

Ltac step_completion Hq :=
  unfold try_finally, try_except, try_catch;
  match goal with
  | |- context [bind (send_completion_notification ?e ?u ?s ?m) ?k ?b] =>
      rewrite (bind_ok (send_completion_notification e u s m) k b tt _ _
                 (send_completion_quiet e u s m b Hq)); cbn
  end.

Ltac read_trace :=
  repeat match goal with
  | V : events ?tr = [] |- context [completions ?tr] =>
      rewrite (completions_status tr V)
  | V : events ?tr = [] |- context [uploads ?tr] =>
      rewrite (uploads_status tr V)
  | V : events ?tr = [] |- context [notices ?tr] =>
      rewrite (notices_status tr V)
  | V : events ?tr = [] |- context [reports ?tr] =>
      rewrite (reports_status tr V)
  | |- _ => rewrite reports_app
  | |- _ => rewrite reports_cons
  | |- _ => rewrite reports_completion_events
  | |- _ => rewrite completions_app
  | |- _ => rewrite completions_cons
  | |- _ => rewrite completions_completion_events
  | |- _ => rewrite uploads_app
  | |- _ => rewrite uploads_cons
  | |- _ => rewrite uploads_completion_events
  | |- _ => rewrite notices_app
  | |- _ => rewrite notices_cons
  | |- _ => rewrite notices_completion_events
  end; cbn.

Ltac frame_completion :=
  match goal with
  | |- context [completion_batch ?e ?b] =>
      let Hp := fresh in
      let Hf := fresh in
      let Hr := fresh in
      let Hc := fresh in
      destruct (completion_batch_frame e b) as (_ & Hp & Hf & Hr & _ & _ & Hc);
      rewrite ?Hf, ?Hp, ?Hr, ?Hc
  end; cbn.

Local Opaque status send_completion_notification take_caption.

Lemma process_single_link_fails e url b msg :
  quiet e ->
  failure_reason e b = Some msg ->
  exists b' t,
    process_single_link e url b = (Ok false, b', t)
    /\ failed b' = failed b ++ [url]
    /\ processed b' = processed b
    /\ remaining b' = remaining b
    /\ completions t
       = match io_completion_error e with
         | Some _ => []
         | None => [CompletionSent url false msg (processed b)
                      (len (all_links b)) (len (all_links b) - processed b)]
         end.
Proof.
  intros Hq Hf. unfold failure_reason in Hf.
  unfold process_single_link. rewrite !Hq.
  cbn.
  step_status Hq.
  destruct (io_fetch e) as [|[|]].
  - step_status Hq. step_completion Hq. injection Hf as <-.
    do 2 eexists; split; [reflexivity|]. frame_completion.
    repeat split. read_trace. destruct (io_completion_error e); reflexivity.
  - step_status Hq. destruct (io_open_error e) as [m|]; cbn.
    + injection Hf as <-. step_status Hq. step_completion Hq.
      do 2 eexists; split; [reflexivity|]. frame_completion.
      repeat split. read_trace. destruct (io_completion_error e); reflexivity.
    + step_status Hq. step_caption Hq.
      unfold notice_due, caption_for, spend_caption in *; cbn in *.
      destruct (cap_active (caption b));
        destruct (cap_remaining (caption b) - 1 <=? 0); cbn in *;
        try destruct (io_notice_error e); cbn in *;
        destruct (io_video_error e); try discriminate;
        injection Hf as <-; cbn;
        step_status Hq; step_completion Hq;
        (do 2 eexists; split; [reflexivity|]); frame_completion;
        repeat split; read_trace;
        destruct (io_completion_error e); reflexivity.
  - step_status Hq. step_completion Hq. injection Hf as <-.
    do 2 eexists; split; [reflexivity|]. frame_completion.
    repeat split. read_trace. destruct (io_completion_error e); reflexivity.
Qed.


(** A link that goes through: [processed] grows by one, and the
    auto-report is decided on the batch in which the link is still queued. *)
Lemma process_single_link_succeeds e url b :
  quiet e ->
  failure_reason e b = None ->
  io_completion_error e = None ->
  io_remain_error e = None ->
  exists b' t,
    process_single_link e url b = (Ok true, b', t)
    /\ processed b' = processed b + 1
    /\ failed b' = failed b
    /\ remaining b' = remaining b
    /\ completions t
       = [CompletionSent url true EmptyString (processed b + 1)
            (len (all_links b)) (len (all_links b) - (processed b + 1))]
    /\ reports t
       = (if auto_report_due (set_processed (processed b + 1) b)
          then [RemainSent (remaining b) (processed b + 1)
                  (len (all_links b)) (len (remaining b)) (Some url)]
          else [])
    /\ last_auto_send b'
       = (if auto_report_due (set_processed (processed b + 1) b)
          then processed b + 1
          else last_auto_send b).
Proof.
  intros Hq Hf Hc Hr. unfold failure_reason in Hf.
  unfold process_single_link. rewrite !Hq.
  cbn.
  step_status Hq.
  destruct (io_fetch e) as [|[|]]; try discriminate.
  step_status Hq.
  destruct (io_open_error e) as [m|]; try discriminate. cbn.
  step_status Hq. step_caption Hq.
  unfold notice_due, caption_for, spend_caption in *; cbn in *.
  destruct (cap_active (caption b));
    destruct (cap_remaining (caption b) - 1 <=? 0); cbn in *;
    try (destruct (io_notice_error e); try discriminate); cbn in *;
    rewrite Hf; cbn;
    step_completion Hq;
    (do 2 eexists; split; [reflexivity|]);
    unfold completion_batch; rewrite Hc;
    (split; [|split; [|split; [|split; [|split]]]]);
    read_trace; rewrite ?Hc, ?Hr;
    unfold auto_report_due; cbn;
    try match goal with
        | |- context [if ?c then _ else _] => destruct c
        end; reflexivity.
Qed.

Local Transparent status send_completion_notification take_caption.

(** ** One iteration *)

Lemma list_remove_head url rest : list_remove url (url :: rest) = Some rest.
Proof. simpl. rewrite String.eqb_refl. reflexivity. Qed.

Lemma remove_link_head url rest b :
  remaining b = url :: rest ->
  remove_link url b = (Ok tt, set_remaining rest b, []).
Proof.
  intros Hr. unfold remove_link, bind, get. cbn.
  rewrite Hr, list_remove_head. reflexivity.
Qed.

Lemma wait_while_paused_running ticks b :
  is_paused b = false -> wait_while_paused ticks b = (Ok tt, b, []).
Proof. intros Hp. destruct ticks; simpl; rewrite Hp; reflexivity. Qed.

Lemma iteration_running e b url rest :
  is_paused b = false ->
  is_processing b = true ->
  remaining b = url :: rest ->
  iteration e b
  = if is_url url then
      match process_single_link e url b with
      | (Ok _, b1, t1) =>
          match remove_link url b1 with
          | (Ok _, b2, t2) => (Ok Continue, b2, t1 ++ t2 ++ [])
          | (Raise x, b2, t2) => (Raise x, b2, t1 ++ t2)
          | (Pending, b2, t2) => (Pending, b2, t1 ++ t2)
          end
      | (Raise x, b1, t1) => (Raise x, b1, t1)
      | (Pending, b1, t1) => (Pending, b1, t1)
      end
    else (Ok Continue, set_remaining rest b, []).
Proof.
  intros Hp Ha Hr. unfold iteration.
  rewrite bind_run, (wait_while_paused_running _ _ Hp).
  rewrite bind_run. unfold get at 1. cbv beta iota. rewrite Ha, Hr. cbn [negb].
  destruct (is_url url); cbn [negb].
  - rewrite bind_run.
    destruct (process_single_link e url b) as [[[ok| |] b1] t1]; try reflexivity.
    rewrite bind_run.
    destruct (remove_link url b1) as [[[[]| |] b2] t2]; reflexivity.
  - rewrite bind_run, (remove_link_head url rest b Hr). reflexivity.
Qed.

Lemma while_remaining_step e es b b' t :
  remaining b <> [] ->
  iteration e b = (Ok Continue, b', t) ->
  while_remaining (e :: es) b
  = match while_remaining es b' with (r, b2, t2) => (r, b2, t ++ t2) end.
Proof.
  intros Hr Hi. simpl.
  destruct (remaining b) as [|u l]; [congruence|]. simpl.
  rewrite bind_run, Hi. reflexivity.
Qed.

(** ** Frames *)

(** What a computation leaves alone, also when it is cancelled. *)

Section Frame.

Context {X : Type} (f : batch -> X).

Lemma frame_ret {A : Type} (a : A) : keeps f (ret a).
Proof. intros b. reflexivity. Qed.

Lemma frame_get : keeps f get.
Proof. intros b. reflexivity. Qed.

Lemma frame_emit x : keeps f (emit x).
Proof. intros b. reflexivity. Qed.

Lemma frame_raise {A : Type} x : keeps f (@raise A x).
Proof. intros b. reflexivity. Qed.

Lemma frame_modify g : (forall b, f (g b) = f b) -> keeps f (modify g).
Proof. intros Hg b. apply Hg. Qed.

Lemma frame_at_await a : still a -> keeps f (at_await a).
Proof. intros [-> | ->] b; reflexivity. Qed.

Lemma frame_bind {A B : Type} (m : M A) (k : A -> M B) :
  keeps f m -> (forall a, keeps f (k a)) -> keeps f (bind m k).
Proof.
  intros Hm Hk b. unfold bind. specialize (Hm b).
  destruct (m b) as [[[a| |] b1] t1]; simpl in *; auto.
  specialize (Hk a b1). destruct (k a b1) as [[r b2] t2]. simpl in *.
  congruence.
Qed.

Lemma frame_try_catch {A : Type} (m : M A) (h : exn -> M A) :
  keeps f m -> (forall x, keeps f (h x)) -> keeps f (try_catch m h).
Proof.
  intros Hm Hh b. unfold try_catch. specialize (Hm b).
  destruct (m b) as [[[a|x|] b1] t1]; simpl in *; auto.
  specialize (Hh x b1). destruct (h x b1) as [[r b2] t2]. simpl in *.
  congruence.
Qed.

Lemma frame_try_except {A : Type} (m : M A) (h : string -> M A) :
  keeps f m -> (forall x, keeps f (h x)) -> keeps f (try_except m h).
Proof.
  intros Hm Hh b. unfold try_except. specialize (Hm b).
  destruct (m b) as [[[a|[msg|]|] b1] t1]; simpl in *; auto.
  specialize (Hh msg b1). destruct (h msg b1) as [[r b2] t2]. simpl in *.
  congruence.
Qed.

Lemma frame_try_finally {A : Type} (m : M A) (g : M unit) :
  keeps f m -> keeps f g -> keeps f (try_finally m g).
Proof.
  intros Hm Hg b. unfold try_finally. specialize (Hm b).
  destruct (m b) as [[r b1] t1]. simpl in *.
  specialize (Hg b1). destruct (g b1) as [[r2 b2] t2]. simpl in *.
  destruct r; simpl; congruence.
Qed.

(** The fields that one link never writes: [f] is any projection that the
    setters used by [process_single_link] leave alone. *)
Hypothesis f_link : forall v b, f (set_last_processed_link v b) = f b.
Hypothesis f_failed : forall v b, f (set_failed v b) = f b.
Hypothesis f_processed : forall v b, f (set_processed v b) = f b.
Hypothesis f_caption : forall v b, f (set_caption_settings v b) = f b.
Hypothesis f_status : forall v b, f (set_status_message_id v b) = f b.
Hypothesis f_auto : forall v b, f (set_last_auto_send v b) = f b.

(** The fields that the loop around the links does not write either. *)
Hypothesis f_remaining : forall v b, f (set_remaining v b) = f b.
Hypothesis f_processing : forall v b, f (set_is_processing v b) = f b.
Hypothesis f_start : forall v b, f (set_start_time v b) = f b.

Ltac frame :=
  repeat first
    [ progress intros
    | progress cbv zeta
    | assumption
    | apply frame_ret
    | apply frame_get
    | apply frame_emit
    | apply frame_raise
    | apply frame_at_await; solve [auto]
    | apply frame_modify; intros ?;
      rewrite ?f_link, ?f_failed, ?f_processed, ?f_caption, ?f_status,
        ?f_auto, ?f_remaining, ?f_processing, ?f_start; reflexivity
    | apply frame_bind
    | apply frame_try_except
    | apply frame_try_catch
    | apply frame_try_finally
    | match goal with
      | |- keeps f (match ?x with _ => _ end) => destruct x
      | |- keeps f (if ?x then _ else _) => destruct x
      end ].

Lemma frame_update_status_message a d t :
  still a -> keeps f (update_status_message a d t).
Proof. intros Ha. unfold update_status_message. frame. Qed.

Lemma frame_status e ph t : cancellable e -> keeps f (status e ph t).
Proof. intros He. apply frame_update_status_message, He. Qed.

Lemma frame_send_remain_links e :
  cancellable e -> keeps f (send_remain_links e).
Proof.
  intros He. pose proof (He AtRemain). unfold send_remain_links. frame.
Qed.

Lemma frame_send_completion e url success msg :
  cancellable e -> keeps f (send_completion_notification e url success msg).
Proof.
  intros He. pose proof (He AtCompletion).
  pose proof (frame_send_remain_links e He).
  unfold send_completion_notification. frame.
Qed.

Lemma frame_take_caption e : cancellable e -> keeps f (take_caption e).
Proof. intros He. pose proof (He AtNotice). unfold take_caption. frame. Qed.

Lemma frame_process_single_link e url :
  cancellable e -> keeps f (process_single_link e url).
Proof.
  intros He.
  pose proof (fun ph t => frame_status e ph t He) as Hs.
  pose proof (fun u s m => frame_send_completion e u s m He) as Hc.
  pose proof (frame_take_caption e He) as Ht.
  pose proof (He AtVideo) as Hv.
  unfold process_single_link. frame.
Qed.

Lemma frame_remove_link url : keeps f (remove_link url).
Proof. unfold remove_link. frame. Qed.

Lemma frame_wait_while_paused ticks :
  Forall still ticks -> keeps f (wait_while_paused ticks).
Proof.
  induction 1 as [|a ticks Ha _ IH]; intros b; simpl.
  - destruct (is_paused b); reflexivity.
  - destruct (is_paused b); [|reflexivity].
    apply (frame_bind _ _ (frame_at_await a Ha) (fun _ => IH)).
Qed.

Lemma frame_iteration e : undisturbed e -> keeps f (iteration e).
Proof.
  intros [He Hs].
  pose proof (frame_wait_while_paused _ Hs).
  pose proof (fun u => frame_process_single_link e u He).
  pose proof frame_remove_link.
  unfold iteration. frame.
Qed.

Lemma frame_while_remaining es :
  Forall undisturbed es -> keeps f (while_remaining es).
Proof.
  induction 1 as [|e es He _ IH]; intros b; simpl.
  - destruct (nonempty (remaining b)); reflexivity.
  - destruct (nonempty (remaining b)); [|reflexivity].
    apply (frame_bind (iteration e)); [apply frame_iteration; exact He|].
    intros []; [exact IH | apply frame_ret].
Qed.

Lemma frame_process_batch w es :
  still (arrive_final w) ->
  still (arrive_fatal w) ->
  Forall undisturbed es ->
  keeps f (process_batch w es).
Proof.
  intros Hfin Hfat Hes.
  pose proof (frame_while_remaining es Hes).
  unfold process_batch, guarded_loop, final_report. frame.
Qed.

End Frame.

Lemma quiet_cancellable e : quiet e -> cancellable e.
Proof. intros Hq s. left. apply Hq. Qed.

Lemma link_keeps_remaining e url :
  cancellable e -> keeps remaining (process_single_link e url).
Proof. apply frame_process_single_link; reflexivity. Qed.

Lemma link_keeps_all_links e url :
  cancellable e -> keeps all_links (process_single_link e url).
Proof. apply frame_process_single_link; reflexivity. Qed.

Lemma link_keeps_is_processing e url :
  cancellable e -> keeps is_processing (process_single_link e url).
Proof. apply frame_process_single_link; reflexivity. Qed.

Lemma link_keeps_is_paused e url :
  cancellable e -> keeps is_paused (process_single_link e url).
Proof. apply frame_process_single_link; reflexivity. Qed.

Lemma link_keeps_user_id e url :
  cancellable e -> keeps user_id (process_single_link e url).
Proof. apply frame_process_single_link; reflexivity. Qed.

Lemma link_keeps_start_time e url :
  cancellable e -> keeps start_time (process_single_link e url).
Proof. apply frame_process_single_link; reflexivity. Qed.

Lemma run_keeps_is_paused w es :
  still (arrive_final w) ->
  still (arrive_fatal w) ->
  Forall undisturbed es ->
  keeps is_paused (process_batch w es).
Proof. apply frame_process_batch; reflexivity. Qed.

(** ** Loop exit *)

Lemma process_batch_exit w es b r b' t :
  process_batch w es b = (r, b', t) ->
  r <> Pending ->
  is_processing b' = false /\ status_message_id b' = None.
Proof.
  unfold process_batch. generalize (guarded_loop w es). intros m.
  unfold bind, modify, try_finally. cbv beta iota.
  match goal with
  | |- context [m ?x] => destruct (m x) as [[[[]|x'|] b1] t1]
  end; cbn; intros E Hr;
    injection E as <- <- <-; try congruence; split; reflexivity.
Qed.

Lemma process_batch_run w es b :
  process_batch w es b
  = match guarded_loop w es (started w b) with
    | (Pending, b1, t1) => (Pending, b1, t1)
    | (r, b1, t1) => (r, exited b1, t1)
    end.
Proof.
  unfold process_batch, started, exited, bind, modify, try_finally.
  cbv beta iota.
  destruct (guarded_loop w es _) as [[[[]|x|] b1] t1]; cbn;
    rewrite ?app_nil_r; reflexivity.
Qed.

(** A loop that has ended does not look at the iterations that the
    observation would still have allowed. *)
Lemma while_remaining_extend es es' :
  forall b r b' t,
    while_remaining es b = (r, b', t) ->
    r <> Pending ->
    while_remaining (es ++ es') b = (r, b', t).
Proof.
  induction es as [|e es IH]; intros b r b' t E Hr.
  - simpl in E. destruct (nonempty (remaining b)) eqn:Hn.
    + injection E as <- _ _. congruence.
    + cbn [app]. destruct es'; simpl; rewrite Hn; exact E.
  - cbn [app]. simpl in E |- *. destruct (nonempty (remaining b)); [|exact E].
    rewrite bind_run in E |- *.
    destruct (iteration e b) as [[[[]|x|] b1] t1]; try exact E.
    destruct (while_remaining es b1) as [[r2 b2] t2] eqn:E2.
    injection E as <- <- <-.
    rewrite (IH b1 r2 b2 t2 E2 Hr). reflexivity.
Qed.

(** A cancellation delivered at any await of the loop or of the final
    report ends the run there: [process_batch] returns through its
    [except CancelledError] and [finally] clauses, runs no further
    iteration and sends nothing more. *)
Lemma cancelled_loop_exits w es es' b b1 t1 :
  (while_remaining es ;; final_report w) (started w b)
  = (Raise CancelledError, b1, t1) ->
  process_batch w (es ++ es') b = (Ok tt, exited b1, t1).
Proof.
  intros E.
  assert (G : guarded_loop w (es ++ es') (started w b) = (Ok tt, b1, t1 ++ [])).
  { unfold guarded_loop, try_catch. rewrite bind_run in E |- *.
    destruct (while_remaining es (started w b)) as [[r0 b0] t0] eqn:Ew.
    assert (Hr : r0 <> Pending) by (destruct r0; congruence).
    rewrite (while_remaining_extend es es' _ _ _ _ Ew Hr).
    destruct r0 as [[]|x|]; [|injection E as -> <- <-; reflexivity|congruence].
    destruct (final_report w b0) as [[r2 b2] t2].
    injection E as -> <- <-. reflexivity. }
  rewrite process_batch_run, G, app_nil_r. reflexivity.
Qed.

(** ** Cancelling the task *)

Lemma cancel_and_await_batch s :
  current_batch (cancel_and_await s) = after_cancel s.
Proof.
  unfold cancel_and_await, after_cancel.
  destruct (processing_task s); reflexivity.
Qed.

Lemma cancel_and_await_done s : no_live_task (cancel_and_await s).
Proof.
  unfold cancel_and_await, no_live_task.
  destruct (processing_task s) eqn:E; cbn; auto.
Qed.

Lemma cancel_and_await_frame s :
  remaining (current_batch (cancel_and_await s)) = remaining (current_batch s)
  /\ processed (current_batch (cancel_and_await s)) = processed (current_batch s)
  /\ failed (current_batch (cancel_and_await s)) = failed (current_batch s)
  /\ all_links (current_batch (cancel_and_await s))
     = all_links (current_batch s).
Proof.
  unfold cancel_and_await. destruct (processing_task s); cbn; repeat split.
Qed.

Lemma clear_queue_resets s :
  remaining (current_batch s) <> [] ->
  clear_queue s
  = (mkBot reset_batch (processing_task (cancel_and_await s)),
     [Replied (RCleared (len (remaining (current_batch s))))]).
Proof.
  intros Hne. unfold clear_queue.
  destruct (remaining (current_batch s)) eqn:Hr; [congruence|].
  cbn [nonempty negb].
  rewrite (proj1 (cancel_and_await_frame s)), Hr. reflexivity.
Qed.

Lemma clear_queue_empty s :
  remaining (current_batch s) = [] ->
  clear_queue s = (s, [Replied RQueueEmpty]).
Proof. intros Hr. unfold clear_queue. rewrite Hr. reflexivity. Qed.

(** ** Handlers and the invariant *)

Lemma paused_means_active_status sid b :
  paused_means_active b -> paused_means_active (set_status_message_id sid b).
Proof. exact (fun H => H). Qed.

(** The writes of [add_links_to_queue] and [skip_links] keep the
    invariant, provided that what runs during their awaited reply does. *)
Lemma add_links_keeps_invariant during links uid s :
  (forall x, paused_means_active (current_batch x) ->
             paused_means_active (current_batch (during x))) ->
  paused_means_active (current_batch s) ->
  paused_means_active
    (current_batch (fst (add_links_to_queue during links uid s))).
Proof.
  intros Hd Hinv. unfold add_links_to_queue.
  destruct (nonempty (all_links (current_batch s))); cbn [negb].
  - cbv zeta.
    match goal with
    | |- context [during ?x] =>
        assert (H3 : paused_means_active (current_batch (during x)))
          by (apply Hd; exact Hinv);
        destruct (negb (is_processing (current_batch (during x)))
                  && nonempty (remaining (current_batch (during x))))
    end.
    + intros _. reflexivity.
    + exact H3.
  - intros H. discriminate H.
Qed.

Lemma skip_links_keeps_invariant during n s :
  (forall x, paused_means_active (current_batch x) ->
             paused_means_active (current_batch (during x))) ->
  paused_means_active (current_batch s) ->
  paused_means_active (current_batch (fst (skip_links during n s))).
Proof.
  intros Hd Hinv. unfold skip_links.
  destruct (n <=? 0); [exact Hinv|].
  destruct (negb (is_processing (current_batch s))); [exact Hinv|].
  destruct (len (remaining (current_batch s)) <=? n).
  - unfold clear_queue.
    destruct (negb (nonempty (remaining (current_batch (during s))))); cbn.
    + apply Hd. exact Hinv.
    + intros H. discriminate H.
  - intros _. reflexivity.
Qed.

Lemma handle_keeps_invariant c s :
  paused_means_active (current_batch s) ->
  paused_means_active (current_batch (fst (handle c s))).
Proof.
  intros Hinv.
  destruct c as [links uid|d|d| |n|n text|]; cbn [handle];
    [apply add_links_keeps_invariant; [intros x Hx; exact Hx | exact Hinv]
    | | | | apply skip_links_keeps_invariant; [intros x Hx; exact Hx | exact Hinv]
    | | ]; unfold paused_means_active in *.
  - unfold pause_processing.
    destruct (is_processing (current_batch s)) eqn:Ha; cbn; rewrite ?Ha; auto.
    destruct (is_paused (current_batch s)) eqn:Hp; cbn; rewrite ?Ha; auto.
    match goal with
    | |- context [run_status ?d ?t ?b] =>
        destruct (run_status_frame d t b) as (sid & tr & E); rewrite E
    end.
    cbn. rewrite ?Ha; auto.
  - unfold resume_processing.
    destruct (is_paused (current_batch s)) eqn:Hp; cbn;
      [|rewrite Hp; exact Hinv].
    match goal with
    | |- context [run_status ?d ?t ?b] =>
        destruct (run_status_frame d t b) as (sid & tr & E); rewrite E
    end.
    cbn. destruct (is_processing (current_batch s)); cbn;
      intros H; discriminate H.
  - unfold clear_queue.
    destruct (nonempty (remaining (current_batch s))); cbn; rewrite ?Ha; auto.
  - unfold set_caption. destruct (n <=? 0); cbn; rewrite ?Ha; auto.
  - unfold show_remain.
    destruct (len (remaining (current_batch s)) =? 0); cbn; rewrite ?Ha; auto.
Qed.

(** ** Caption settings over successive attempts *)



(** * Properties of the controller *)

(** The state of the first scenarios is the one the loop itself reaches
    after two delivered links. *)
Lemma third_link_next_reached :
  process_batch world [calm; calm] (current_batch (enqueued three_links))
  = (Pending, third_link_next,
     snd (process_batch world [calm; calm]
            (current_batch (enqueued three_links)))).
Proof. vm_compute. reflexivity. Qed.

Lemma fifth_link_next_reached :
  process_batch world [calm; calm; calm; calm]
    (current_batch (enqueued five_links))
  = (Pending, fifth_link_next,
     snd (process_batch world [calm; calm; calm; calm]
            (current_batch (enqueued five_links)))).
Proof. vm_compute. reflexivity. Qed.

(** Scenario B: six links that all go through give one auto-report, after
    the fifth, and a summary of six successes and no failure. *)
Example scenario_b :
  fst (fst six_links_run) = Ok tt
  /\ reports (snd six_links_run)
     = [RemainSent ["http://5"%string; "http://6"%string] 5 6 2
          (Some "http://5"%string)]
  /\ List.length (completions (snd six_links_run)) = 6%nat
  /\ last (snd six_links_run) NoticeSent = SummarySent 6 0 60.
Proof. vm_compute. repeat split. Qed.

(** ** C1: bookkeeping of a failed link *)

(** C1, as stated, fails: a download that exceeds the size limit puts the
    link into [failed] but leaves [processed] where it was (2, not 3). *)
Lemma size_exceeded_not_counted :
  fst (fst size_exceeded_run) = Ok Continue
  /\ failed (snd (fst size_exceeded_run)) = ["http://3"%string]
  /\ remaining (snd (fst size_exceeded_run)) = []
  /\ processed third_link_next = 2
  /\ processed (snd (fst size_exceeded_run)) = 2
  /\ processed (snd (fst size_exceeded_run))
     <> processed third_link_next + 1.
Proof. vm_compute. repeat split; congruence. Qed.

(** C1, amended: when the attempt on the head link fails (download, size
    limit, opening the file, caption notice or upload), the iteration
    appends the link to [failed], leaves [processed] unchanged, emits one
    failure completion event carrying the reason when the message is
    delivered, removes the link from [remaining] and the loop goes on with
    the next link; the reason of a [None] download is the size-limit
    message. *)
Theorem failed_link_bookkeeping e es b url rest msg :
  quiet e ->
  is_paused b = false ->
  is_processing b = true ->
  remaining b = url :: rest ->
  is_url url = true ->
  failure_reason e b = Some msg ->
  exists b' t,
    iteration e b = (Ok Continue, b', t)
    /\ failed b' = failed b ++ [url]
    /\ processed b' = processed b
    /\ remaining b' = rest
    /\ completions t
       = match io_completion_error e with
         | Some _ => []
         | None => [CompletionSent url false msg (processed b)
                      (len (all_links b)) (len (all_links b) - processed b)]
         end
    /\ while_remaining (e :: es) b
       = match while_remaining es b' with (r, b2, t2) => (r, b2, t ++ t2) end
    /\ (io_fetch e = FetchNone -> msg = "Video exceeds 49MB limit"%string).
Proof.
  intros Hq Hp Ha Hr Hu Hf.
  destruct (process_single_link_fails e url b msg Hq Hf)
    as (b1 & t1 & E & Hfail & Hproc & Hrem & Hcomp).
  assert (Hi : iteration e b
               = (Ok Continue, set_remaining rest b1, t1 ++ [] ++ [])).
  { rewrite (iteration_running e b url rest Hp Ha Hr), Hu, E.
    rewrite (remove_link_head url rest b1) by congruence. reflexivity. }
  exists (set_remaining rest b1), (t1 ++ [] ++ []).
  split; [exact Hi|].
  split; [exact Hfail|]. split; [exact Hproc|]. split; [reflexivity|].
  split; [rewrite !app_nil_r; exact Hcomp|].
  split.
  - apply while_remaining_step; [congruence | exact Hi].
  - intros Hn. unfold failure_reason in Hf. rewrite Hn in Hf. congruence.
Qed.

Lemma failed_link_bookkeeping_witness :
  exists b' t,
    iteration too_large third_link_next = (Ok Continue, b', t)
    /\ failed b' = failed third_link_next ++ ["http://3"%string]
    /\ processed b' = processed third_link_next
    /\ remaining b' = [].
Proof.
  destruct (failed_link_bookkeeping too_large [] third_link_next
              "http://3"%string [] "Video exceeds 49MB limit"%string)
    as (b' & t & H1 & H2 & H3 & H4 & _);
    [intros s; reflexivity | reflexivity | reflexivity | reflexivity
    | reflexivity | reflexivity |].
  exists b', t. repeat split; assumption.
Defined.

(** ** C2: the auto-report throttle *)

(** C2, as stated, fails: [skip 7] takes [processed] from 2 to 9 without
    any auto-report, and the completion event that follows (a failed link,
    [processed] still 9) sends none either, although
    [processed - last_auto_send] is 9: the first test is on
    [processed mod 5]. *)
Lemma skip_jump_sends_no_auto_report :
  processed (current_batch two_done) = 2
  /\ processed (current_batch (fst skip_seven)) = 9
  /\ reports (snd skip_seven) = []
  /\ completions (snd failure_after_skip)
     = [CompletionSent "http://10" false "Video exceeds 49MB limit" 9 10 1]
  /\ reports (snd failure_after_skip) = []
  /\ last_auto_send (snd (fst failure_after_skip)) = 0
  /\ 5 <= processed (snd (fst failure_after_skip))
          - last_auto_send (snd (fst failure_after_skip)).
Proof. vm_compute. repeat split; congruence. Qed.

Lemma skip_links_reports during n s :
  reports (snd (skip_links during n s)) = [].
Proof.
  unfold skip_links, clear_queue.
  destruct (n <=? 0); [reflexivity|].
  destruct (negb (is_processing (current_batch s))); [reflexivity|].
  destruct (len (remaining (current_batch s)) <=? n); [|reflexivity].
  destruct (negb (nonempty (remaining (current_batch (during s)))));
    reflexivity.
Qed.

(** C2, amended: after a delivered completion event the remaining list
    is sent as an auto-report if and only if [processed] is positive and a
    multiple of 5, [remaining] is not empty, the owner is set and
    [processed - last_auto_send >= 5]; in that case [last_auto_send]
    becomes [processed], otherwise it is unchanged. A skip sends no
    auto-report, whatever it adds to [processed] and whatever happens while
    its reply is awaited. *)
Theorem completion_auto_report e url success msg b during n s :
  quiet e ->
  io_completion_error e = None ->
  io_remain_error e = None ->
  exists b' t,
    send_completion_notification e url success msg b = (Ok tt, b', t)
    /\ completions t
       = [CompletionSent url success msg (processed b) (len (all_links b))
            (len (all_links b) - processed b)]
    /\ (0 < processed b /\ processed b mod 5 = 0 /\ remaining b <> []
        /\ truthy (user_id b) = true
        /\ 5 <= processed b - last_auto_send b ->
        reports t = [RemainSent (remaining b) (processed b)
                       (len (all_links b)) (len (remaining b))
                       (last_processed_link b)]
        /\ last_auto_send b' = processed b)
    /\ (~ (0 < processed b /\ processed b mod 5 = 0 /\ remaining b <> []
           /\ truthy (user_id b) = true
           /\ 5 <= processed b - last_auto_send b) ->
        reports t = [] /\ last_auto_send b' = last_auto_send b)
    /\ reports (snd (skip_links during n s)) = [].
Proof.
  intros Hq Hc Hr.
  rewrite (send_completion_quiet e url success msg b Hq).
  unfold completion_batch, completion_events. rewrite Hc, Hr.
  do 2 eexists. split; [reflexivity|].
  pose proof (auto_report_due_spec b) as Hdue.
  destruct (auto_report_due b); cbn.
  - split; [reflexivity|]. split; [intros _; split; reflexivity|].
    split; [|apply skip_links_reports].
    intros Hn. exfalso. apply Hn, Hdue. reflexivity.
  - split; [reflexivity|]. split; [|split; [intros _; split; reflexivity|]].
    + intros Hy. apply Hdue in Hy. discriminate Hy.
    + apply skip_links_reports.
Qed.

Lemma completion_auto_report_witness :
  exists b' t,
    send_completion_notification calm "http://5" true EmptyString
      (set_processed 5 (current_batch (enqueued five_links))) = (Ok tt, b', t)
    /\ last_auto_send b' = 5.
Proof.
  destruct (completion_auto_report calm "http://5"%string true EmptyString
              (set_processed 5 (current_batch (enqueued five_links)))
              idle 7 two_done)
    as (b' & t & H1 & _ & H2 & _);
    [intros s; reflexivity | reflexivity | reflexivity |].
  exists b', t. split; [exact H1|].
  apply H2. repeat split; try reflexivity; try discriminate.
Defined.

(** ** C3: caption uses *)




(** ** C4: skipping the whole queue *)

(** C4, as stated, fails: [skip 8] on a queue of 8, with the task standing
    still during the reply, leaves exactly the state of [clear];
    [processed] is reset to 0 and does not count the skipped links. *)
Lemma skip_all_resets_processed :
  len (remaining (current_batch two_done)) = 8
  /\ processed (current_batch two_done) = 2
  /\ fst (skip_links idle 8 two_done) = fst (clear_queue two_done)
  /\ processed (current_batch (fst (skip_links idle 8 two_done))) = 0.
Proof. vm_compute. repeat split. Qed.

(** The reply of [skip] can outlast the loop. The upload of the only link
    is awaited when [/skip 1] arrives, and the task works the link off
    while the handler awaits its reply: [clear_queue] then finds the queue
    empty and resets nothing, where [/clean] in the place of [/skip] would
    have reset the batch. *)
Lemma skip_after_the_last_link :
  skip_links (fun _ => only_link_done) 1
    (first_upload_awaited ["http://a"%string])
  = (only_link_done, [Replied (RSkipCancelling 1 1); Replied RQueueEmpty])
  /\ processed (current_batch only_link_done) = 1
  /\ all_links (current_batch only_link_done) = ["http://a"%string]
  /\ current_batch (fst (clear_queue (first_upload_awaited ["http://a"%string])))
     = reset_batch.
Proof. vm_compute. repeat split. Qed.

(** C4, amended: in an active state with a non-empty queue, [skip n] with
    [n >= |remaining|] replies and then runs [clear] on the bot it finds
    after the reply. If links are still queued then, the final batch is
    exactly the one [clear] produces, [processed] included: it is reset to
    0 and does not count the skipped links, and no task is left alive. If
    the loop has emptied the queue during the reply, nothing is reset. *)
Theorem skip_all_is_clear during n s :
  is_processing (current_batch s) = true ->
  remaining (current_batch s) <> [] ->
  len (remaining (current_batch s)) <= n ->
  skip_links during n s
  = (fst (clear_queue (during s)),
     Replied (RSkipCancelling n (len (remaining (current_batch s))))
     :: snd (clear_queue (during s)))
  /\ (remaining (current_batch (during s)) <> [] ->
      current_batch (fst (skip_links during n s)) = reset_batch
      /\ current_batch (fst (skip_links during n s))
         = current_batch (fst (clear_queue s))
      /\ processed (current_batch (fst (skip_links during n s))) = 0
      /\ no_live_task (fst (skip_links during n s)))
  /\ (remaining (current_batch (during s)) = [] ->
      skip_links during n s
      = (during s,
         [Replied (RSkipCancelling n (len (remaining (current_batch s))));
          Replied RQueueEmpty]))
  /\ (during s = s -> fst (skip_links during n s) = fst (clear_queue s)).
Proof.
  intros Ha Hne Hn.
  assert (Hlen : 0 < len (remaining (current_batch s))).
  { unfold len. destruct (remaining (current_batch s)); [congruence|].
    simpl List.length. lia. }
  assert (E : skip_links during n s
              = (fst (clear_queue (during s)),
                 Replied (RSkipCancelling n (len (remaining (current_batch s))))
                 :: snd (clear_queue (during s)))).
  { unfold skip_links.
    destruct (n <=? 0) eqn:Hz; [apply Z.leb_le in Hz; lia|].
    rewrite Ha. cbn [negb].
    destruct (len (remaining (current_batch s)) <=? n) eqn:Hl;
      [|apply Z.leb_gt in Hl; lia].
    destruct (clear_queue (during s)) as [s' t]. reflexivity. }
  rewrite E. cbn [fst snd].
  split; [reflexivity|]. split; [|split].
  - intros Hd. rewrite (clear_queue_resets (during s) Hd).
    rewrite (clear_queue_resets s Hne). cbn [fst current_batch].
    repeat split. apply cancel_and_await_done.
  - intros Hd. rewrite (clear_queue_empty (during s) Hd). reflexivity.
  - intros ->. reflexivity.
Qed.

Lemma skip_all_is_clear_witness :
  current_batch (fst (skip_links idle 8 two_done)) = reset_batch.
Proof.
  refine (proj1 (proj1 (proj2
            (skip_all_is_clear idle 8 two_done eq_refl _ _)) _)).
  - discriminate.
  - vm_compute. discriminate.
  - discriminate.
Defined.

(** ** C5: clearing while a link is in flight *)

(** What the cancellation in [clear_queue] is there to prevent. If the
    batch is overwritten while the upload is awaited and the task is left
    running, the task goes on writing on the new batch: it counts its link
    ([processed] becomes 1), does not find it in the emptied queue and ends
    with the error message of the loop. *)
Lemma reset_without_cancel_is_written_over :
  fst (fst unguarded_reset_run) = Ok tt
  /\ processed reset_batch = 0
  /\ processed (snd (fst unguarded_reset_run)) = 1
  /\ last (snd unguarded_reset_run) NoticeSent
     = FatalSent "list.remove(x): x not in list".
Proof. vm_compute. repeat split. Qed.

(** C5: [clear_queue] cancels the task and awaits it before it resets the
    batch. Let the task be suspended in an await of its loop, with batch
    [b1] and links queued. The cancellation ends the run of the task there:
    [process_batch] returns through [except CancelledError] and [finally],
    whatever iterations it could still have made. What the handler finds
    after [await self.processing_task] is the batch of that exit and a task
    that is done, and only then does it write the reset dictionary: after
    [clear_queue] the batch is the reset one, [remaining] empty and
    [processed] 0, and no task is left that could write on it. Without the
    cancellation the same reset is written over by the task. *)
Theorem clear_awaits_loop_exit w es es' b b1 t1 :
  (while_remaining es ;; final_report w) (started w b)
  = (Raise CancelledError, b1, t1) ->
  remaining b1 <> [] ->
  process_batch w (es ++ es') b = (Ok tt, exited b1, t1)
  /\ cancel_and_await (mkBot b1 Suspended)
     = mkBot (snd (fst (process_batch w (es ++ es') b))) Finished
  /\ clear_queue (mkBot b1 Suspended)
     = (mkBot reset_batch Finished, [Replied (RCleared (len (remaining b1)))])
  /\ remaining (current_batch (fst (clear_queue (mkBot b1 Suspended)))) = []
  /\ processed (current_batch (fst (clear_queue (mkBot b1 Suspended)))) = 0
  /\ (forall s, remaining (current_batch s) <> [] ->
                current_batch (fst (clear_queue s)) = reset_batch
                /\ no_live_task (fst (clear_queue s)))
  /\ processed (snd (fst unguarded_reset_run)) = 1.
Proof.
  intros E Hne.
  pose proof (cancelled_loop_exits w es es' b b1 t1 E) as Hrun.
  split; [exact Hrun|]. split; [rewrite Hrun; reflexivity|].
  rewrite (clear_queue_resets (mkBot b1 Suspended) Hne).
  repeat split.
  - rewrite (clear_queue_resets s H). reflexivity.
  - rewrite (clear_queue_resets s H). apply cancel_and_await_done.
Qed.

Lemma clear_awaits_loop_exit_witness :
  clear_queue (first_upload_awaited three_links)
  = (mkBot reset_batch Finished, [Replied (RCleared 3)]).
Proof.
  refine (proj1 (proj2 (proj2
            (clear_awaits_loop_exit world [cancel_during_upload] [calm; calm]
               (current_batch (enqueued three_links))
               (current_batch (first_upload_awaited three_links))
               (snd (while_remaining [cancel_during_upload]
                       (started world (current_batch (enqueued three_links)))))
               _ _)))).
  - vm_compute. reflexivity.
  - vm_compute. discriminate.
Defined.

(** ** C6: paused implies active *)

(** C6, as stated, fails: a single link is queued, the operator pauses
    while its upload is awaited, the link completes and the loop exits;
    the bot is then paused and not active. *)
Lemma paused_inactive_reachable :
  reachable paused_at_exit
  /\ is_paused (current_batch paused_at_exit) = true
  /\ is_processing (current_batch paused_at_exit) = false.
Proof.
  split; [|split; reflexivity].
  unfold paused_at_exit.
  destruct (process_batch world [pause_during_upload]
              (current_batch (enqueued ["http://a"%string])))
    as [[r b'] t] eqn:E.
  cbn [fst snd].
  apply (reach_task (enqueued ["http://a"%string]) world
           [pause_during_upload] r b' t).
  - apply (reach_handle initial_bot (Enqueue ["http://a"%string] operator)).
    + apply reach_initial.
    + left. reflexivity.
  - reflexivity.
  - constructor; [|constructor]. split; [|constructor].
    intros []; [exists [] | exists [] | exists [Pause (Some 7)]
               | exists [] | exists []]; split; reflexivity.
  - exists []. split; reflexivity.
  - exists []. split; reflexivity.
  - exact E.
  - vm_compute in E. injection E as <- _ _. discriminate.
Qed.

(** C6, amended: every command handler keeps "paused implies active":
    [handle], which runs a handler with the task standing still, and
    [skip_links] and [add_links_to_queue] whenever what runs during their
    awaited reply keeps it. The exit of the loop does not. Every exit (queue
    worked off, cancellation, error) clears [is_processing] and leaves
    [is_paused] as the loop left it, which is as the run found it when no
    handler arrived meanwhile; so a run that ends paused ends in a state
    that is paused and not active. *)
Theorem pause_invariant_commands_and_exit c during n links uid s w es b r b' t :
  paused_means_active (current_batch s) ->
  (forall x, paused_means_active (current_batch x) ->
             paused_means_active (current_batch (during x))) ->
  process_batch w es b = (r, b', t) ->
  r <> Pending ->
  paused_means_active (current_batch (fst (handle c s)))
  /\ paused_means_active (current_batch (fst (skip_links during n s)))
  /\ paused_means_active
       (current_batch (fst (add_links_to_queue during links uid s)))
  /\ is_processing b' = false
  /\ b' = exited (snd (fst (guarded_loop w es (started w b))))
  /\ (still (arrive_final w) -> still (arrive_fatal w) ->
      Forall undisturbed es ->
      is_paused b' = is_paused b)
  /\ (is_paused b' = true -> ~ paused_means_active b').
Proof.
  intros Hinv Hd E Hr.
  assert (Ha : is_processing b' = false)
    by exact (proj1 (process_batch_exit w es b r b' t E Hr)).
  split; [apply handle_keeps_invariant; exact Hinv|].
  split; [apply skip_links_keeps_invariant; assumption|].
  split; [apply add_links_keeps_invariant; assumption|].
  split; [exact Ha|]. split; [|split].
  - rewrite process_batch_run in E.
    destruct (guarded_loop w es (started w b)) as [[[[]|x|] b1] t1];
      injection E as <- <- <-; cbn [fst snd]; congruence.
  - intros Hfin Hfat Hes.
    pose proof (run_keeps_is_paused w es Hfin Hfat Hes b) as K.
    rewrite E in K. exact K.
  - intros Hp Hinv'. specialize (Hinv' Hp). congruence.
Qed.

Lemma pause_invariant_commands_and_exit_witness :
  paused_means_active
    (current_batch (fst (handle (SetCaption 3 "X") paused_running)))
  /\ is_paused (current_batch (fst (handle (SetCaption 3 "X") paused_running)))
     = true
  /\ is_paused (snd (fst (process_batch world [cancel_while_paused]
                            (current_batch paused_running)))) = true
  /\ is_processing (snd (fst (process_batch world [cancel_while_paused]
                                (current_batch paused_running)))) = false.
Proof.
  destruct (process_batch world [cancel_while_paused]
              (current_batch paused_running))
    as [[r b'] t] eqn:E.
  destruct (pause_invariant_commands_and_exit (SetCaption 3 "X"%string) idle
              1 [] operator paused_running world [cancel_while_paused]
              (current_batch paused_running) r b' t)
    as (H1 & _ & _ & H2 & _ & H3 & _).
  - intros H. reflexivity.
  - intros x H. exact H.
  - exact E.
  - vm_compute in E. injection E as <- _ _. discriminate.
  - cbn [fst snd]. split; [exact H1|]. split; [reflexivity|].
    split; [|exact H2].
    rewrite H3; [reflexivity | left; reflexivity | left; reflexivity |].
    constructor; [|constructor].
    split; [intros x; left; reflexivity|].
    constructor; [left; reflexivity|].
    constructor; [right; reflexivity | constructor].
Defined.

(** ** C7: malformed links *)

(** C7: a head link without [http://] or [https://] prefix is removed and
    the loop goes on; nothing is fetched or sent, [failed] and [processed]
    are untouched. In scenario A two completion events are emitted and
    [processed] ends at 2. *)
Theorem malformed_head_dropped e es b url rest :
  is_paused b = false ->
  is_processing b = true ->
  remaining b = url :: rest ->
  is_url url = false ->
  iteration e b = (Ok Continue, set_remaining rest b, [])
  /\ failed (set_remaining rest b) = failed b
  /\ processed (set_remaining rest b) = processed b
  /\ while_remaining (e :: es) b = while_remaining es (set_remaining rest b)
  /\ List.length (completions (snd scenario_a_run)) = 2%nat
  /\ processed (snd (fst scenario_a_run)) = 2
  /\ failed (snd (fst scenario_a_run)) = [].
Proof.
  intros Hp Ha Hr Hu.
  assert (Hi : iteration e b = (Ok Continue, set_remaining rest b, [])).
  { rewrite (iteration_running e b url rest Hp Ha Hr), Hu. reflexivity. }
  split; [exact Hi|]. split; [reflexivity|]. split; [reflexivity|].
  split; [|vm_compute; repeat split].
  rewrite (while_remaining_step e es b _ [] ) by (congruence || exact Hi).
  destruct (while_remaining es (set_remaining rest b)) as [[r b2] t2].
  reflexivity.
Qed.

Lemma malformed_head_dropped_witness :
  iteration calm
    (set_remaining ["not-a-url"%string; "http://b"%string]
       (current_batch (enqueued scenario_a)))
  = (Ok Continue,
     set_remaining ["http://b"%string]
       (set_remaining ["not-a-url"%string; "http://b"%string]
          (current_batch (enqueued scenario_a))), []).
Proof.
  exact (proj1 (malformed_head_dropped calm []
                  (set_remaining ["not-a-url"%string; "http://b"%string]
                     (current_batch (enqueued scenario_a)))
                  "not-a-url"%string ["http://b"%string]
                  eq_refl eq_refl eq_refl eq_refl)).
Defined.

(** ** C8: skipping part of the queue *)

(** C8: in an active state, [skip n] with [0 < n < |remaining|] cancels the
    task and awaits its end, removes exactly the first [n] links of
    [remaining] and keeps the rest in order, adds [n] to [processed], leaves
    [failed] alone, sends the skipped links as a document and starts a new
    processing task. The batch it slices is the one the old task left: for a
    task suspended in its loop that is the batch of the loop's own exit
    through [except CancelledError] and [finally], and no task is alive when
    the new one is created. The new loop starts at link [n + 1]. Nothing of
    this depends on what runs during a reply. *)
Theorem skip_some during n s :
  is_processing (current_batch s) = true ->
  0 < n ->
  n < len (remaining (current_batch s)) ->
  remaining (current_batch (fst (skip_links during n s)))
  = skipn (Z.to_nat n) (remaining (current_batch s))
  /\ remaining (current_batch s)
     = firstn (Z.to_nat n) (remaining (current_batch s))
       ++ remaining (current_batch (fst (skip_links during n s)))
  /\ len (firstn (Z.to_nat n) (remaining (current_batch s))) = n
  /\ processed (current_batch (fst (skip_links during n s)))
     = processed (current_batch s) + n
  /\ failed (current_batch (fst (skip_links during n s)))
     = failed (current_batch s)
  /\ snd (skip_links during n s)
     = [SkippedDoc (firstn (Z.to_nat n) (remaining (current_batch s))) n
          (processed (current_batch s) + n)
          (len (all_links (current_batch s)))
          (len (skipn (Z.to_nat n) (remaining (current_batch s))));
        Replied (RSkipResumed (n + 1))]
  /\ is_processing (current_batch (fst (skip_links during n s))) = true
  /\ processing_task (fst (skip_links during n s)) = Scheduled
  /\ current_batch (fst (skip_links during n s))
     = set_is_processing true
         (set_processed (processed (current_batch s) + n)
            (set_remaining (skipn (Z.to_nat n) (remaining (current_batch s)))
               (after_cancel s)))
  /\ current_batch (cancel_and_await s) = after_cancel s
  /\ no_live_task (cancel_and_await s)
  /\ (processing_task s = Suspended ->
      forall w es es' b t,
        (while_remaining es ;; final_report w) (started w b)
        = (Raise CancelledError, current_batch s, t) ->
        process_batch w (es ++ es') b = (Ok tt, after_cancel s, t))
  /\ hd_error (remaining (current_batch (fst (skip_links during n s))))
     = nth_error (remaining (current_batch s)) (Z.to_nat n).
Proof.
  intros Ha Hn Hlt.
  destruct (cancel_and_await_frame s) as (Hr & Hp & Hf & Hl).
  pose proof (cancel_and_await_batch s) as Hb.
  assert (E : skip_links during n s
              = (mkBot
                   (set_is_processing true
                      (set_processed (processed (current_batch s) + n)
                         (set_remaining
                            (skipn (Z.to_nat n) (remaining (current_batch s)))
                            (after_cancel s))))
                   Scheduled,
                 [SkippedDoc (firstn (Z.to_nat n) (remaining (current_batch s)))
                    n (processed (current_batch s) + n)
                    (len (all_links (current_batch s)))
                    (len (skipn (Z.to_nat n) (remaining (current_batch s))));
                  Replied (RSkipResumed (n + 1))])).
  { unfold skip_links.
    destruct (n <=? 0) eqn:Hz; [apply Z.leb_le in Hz; lia|].
    rewrite Ha. cbn [negb].
    destruct (len (remaining (current_batch s)) <=? n) eqn:Hc;
      [apply Z.leb_le in Hc; lia|].
    cbv zeta. rewrite Hb.
    cbn [remaining processed all_links set_remaining set_processed].
    rewrite <- Hb, Hr, Hp, Hl, Hb. reflexivity. }
  rewrite E. cbn [fst snd current_batch processing_task].
  assert (Hra : remaining (after_cancel s) = remaining (current_batch s))
    by (rewrite <- Hb; exact Hr).
  assert (Hpa : processed (after_cancel s) = processed (current_batch s))
    by (rewrite <- Hb; exact Hp).
  assert (Hfa : failed (after_cancel s) = failed (current_batch s))
    by (rewrite <- Hb; exact Hf).
  cbn [remaining processed failed is_processing set_remaining set_processed
       set_is_processing].
  split; [reflexivity|].
  split; [symmetry; apply firstn_skipn|].
  split; [unfold len in *; rewrite length_firstn; lia|].
  split; [reflexivity|]. split; [exact Hfa|].
  split; [reflexivity|]. split; [reflexivity|]. split; [reflexivity|].
  split; [reflexivity|]. split; [exact Hb|].
  split; [apply cancel_and_await_done|]. split.
  - intros Ht w es es' b t Hrun. unfold after_cancel. rewrite Ht.
    apply cancelled_loop_exits. exact Hrun.
  - apply hd_error_skipn.
Qed.

Lemma skip_some_witness :
  processed (current_batch (fst (skip_links idle 1
                                   (first_upload_awaited three_links))))
  = processed (current_batch (first_upload_awaited three_links)) + 1
  /\ process_batch world [cancel_during_upload; calm; calm]
       (current_batch (enqueued three_links))
     = (Ok tt, after_cancel (first_upload_awaited three_links),
        snd (while_remaining [cancel_during_upload]
               (started world (current_batch (enqueued three_links))))).
Proof.
  destruct (skip_some idle 1 (first_upload_awaited three_links))
    as (_ & _ & _ & H1 & _ & _ & _ & _ & _ & _ & _ & H2 & _).
  - reflexivity.
  - reflexivity.
  - vm_compute. reflexivity.
  - split; [exact H1|].
    apply (H2 eq_refl world [cancel_during_upload] [calm; calm]
             (current_batch (enqueued three_links))).
    vm_compute. reflexivity.
Defined.

(** ** C9: pausing twice *)

Lemma pause_inactive d s :
  is_processing (current_batch s) = false ->
  pause_processing d s = (s, [Replied RPauseNoProcessing]).
Proof. intros Ha. unfold pause_processing. rewrite Ha. reflexivity. Qed.

Lemma pause_already d s :
  is_processing (current_batch s) = true ->
  is_paused (current_batch s) = true ->
  pause_processing d s = (s, [Replied RPauseAlready]).
Proof. intros Ha Hp. unfold pause_processing. rewrite Ha, Hp. reflexivity. Qed.

Lemma pause_running d s :
  is_processing (current_batch s) = true ->
  is_paused (current_batch s) = false ->
  exists sid tr,
    pause_processing d s
    = (mkBot (set_status_message_id sid (set_is_paused true (current_batch s)))
         (processing_task s), tr ++ [Replied RPaused]).
Proof.
  intros Ha Hp. unfold pause_processing. rewrite Ha, Hp. cbn [negb].
  match goal with
  | |- context [run_status ?d ?t ?x] =>
      destruct (run_status_frame d t x) as (sid & tr & E); rewrite E
  end.
  eauto.
Qed.

(** C9: a second pause changes nothing and is answered with a no-op
    reply, and so is any pause while the bot is not processing. *)
Theorem pause_twice d1 d2 s b task :
  fst (pause_processing d2 (fst (pause_processing d1 s)))
  = fst (pause_processing d1 s)
  /\ (snd (pause_processing d2 (fst (pause_processing d1 s)))
      = [Replied RPauseAlready]
      \/ snd (pause_processing d2 (fst (pause_processing d1 s)))
         = [Replied RPauseNoProcessing])
  /\ pause_processing d1 (mkBot (set_is_processing false b) task)
     = (mkBot (set_is_processing false b) task, [Replied RPauseNoProcessing]).
Proof.
  assert (H : pause_processing d2 (fst (pause_processing d1 s))
              = (fst (pause_processing d1 s), [Replied RPauseAlready])
              \/ pause_processing d2 (fst (pause_processing d1 s))
                 = (fst (pause_processing d1 s), [Replied RPauseNoProcessing])).
  { destruct (is_processing (current_batch s)) eqn:Ha.
    - left. destruct (is_paused (current_batch s)) eqn:Hp.
      + rewrite (pause_already d1 s Ha Hp). cbn [fst].
        apply pause_already; assumption.
      + destruct (pause_running d1 s Ha Hp) as (sid & tr & E). rewrite E.
        cbn [fst]. apply pause_already; [exact Ha | reflexivity].
    - right. rewrite (pause_inactive d1 s Ha). cbn [fst].
      apply pause_inactive. exact Ha. }
  split; [|split].
  - destruct H as [H|H]; rewrite H; reflexivity.
  - destruct H as [H|H]; rewrite H; [left | right]; reflexivity.
  - apply pause_inactive. reflexivity.
Qed.

(** ** C10: the guards of the auto-report *)

(** C10, as stated, fails in its consequence: in a batch of exactly five
    links the fifth is still at the head of [remaining] when its completion
    event is sent, so an auto-report listing it goes out. *)
Lemma five_links_send_auto_report :
  fst (fst five_links_run) = Ok tt
  /\ processed (snd (fst five_links_run)) = 5
  /\ reports (snd five_links_run)
     = [RemainSent ["http://5"%string] 5 5 1 (Some "http://5"%string)]
  /\ last_auto_send (snd (fst five_links_run)) = 5.
Proof. vm_compute. repeat split. Qed.

(** C10, amended: when [remaining] is empty or the owner is unset,
    [send_remain_links] sends nothing and leaves the batch, [last_auto_send]
    included, as it is, whatever [processed - last_auto_send] is. That
    guard does not stop the report of a fifth link that empties the queue:
    the link is still the head of [remaining] when its completion event is
    sent, and the auto-report lists it. *)
Theorem auto_report_guard e b e2 b2 url rest :
  remaining b = [] \/ truthy (user_id b) = false ->
  quiet e2 ->
  failure_reason e2 b2 = None ->
  io_completion_error e2 = None ->
  io_remain_error e2 = None ->
  remaining b2 = url :: rest ->
  truthy (user_id b2) = true ->
  0 < processed b2 + 1 ->
  (processed b2 + 1) mod 5 = 0 ->
  5 <= processed b2 + 1 - last_auto_send b2 ->
  send_remain_links e b = (Ok tt, b, [])
  /\ exists b' t,
       process_single_link e2 url b2 = (Ok true, b', t)
       /\ reports t
          = [RemainSent (url :: rest) (processed b2 + 1) (len (all_links b2))
               (len (url :: rest)) (Some url)]
       /\ last_auto_send b' = processed b2 + 1.
Proof.
  intros H Hq Hf Hc Hr Hrem Hu Hpos Hmod Hdelta. split.
  - unfold send_remain_links, bind, get. cbv beta iota.
    destruct H as [H|H]; rewrite H; cbn.
    + reflexivity.
    + rewrite orb_true_r. reflexivity.
  - destruct (process_single_link_succeeds e2 url b2 Hq Hf Hc Hr)
      as (b' & t & E & _ & _ & _ & _ & Hrep & Hlast).
    assert (Hdue : auto_report_due (set_processed (processed b2 + 1) b2) = true).
    { apply auto_report_due_spec. cbn. rewrite Hrem.
      repeat split; try assumption. discriminate. }
    rewrite Hdue, Hrem in Hrep. rewrite Hdue in Hlast.
    exists b', t. repeat split; assumption.
Qed.

Lemma auto_report_guard_witness :
  send_remain_links calm (set_processed 5 initial_batch)
  = (Ok tt, set_processed 5 initial_batch, []).
Proof.
  refine (proj1 (auto_report_guard calm (set_processed 5 initial_batch)
                   calm fifth_link_next "http://5"%string []
                   (or_introl eq_refl) (fun s => eq_refl) eq_refl eq_refl
                   eq_refl eq_refl eq_refl _ eq_refl _)).
  - vm_compute. reflexivity.
  - vm_compute. discriminate.
Defined.

(** * Further properties *)

(** ** One link, whatever the outside world does *)

Local Opaque status send_completion_notification take_caption.

Lemma process_single_link_goes_through e url b :
  quiet e ->
  failure_reason e b = None ->
  exists b' t,
    process_single_link e url b = (Ok true, b', t)
    /\ processed b' = processed b + 1
    /\ failed b' = failed b
    /\ completions t
       = match io_completion_error e with
         | Some _ => []
         | None => [CompletionSent url true EmptyString (processed b + 1)
                      (len (all_links b))
                      (len (all_links b) - (processed b + 1))]
         end.
Proof.
  intros Hq Hf. unfold failure_reason in Hf.
  unfold process_single_link. rewrite !Hq.
  cbn.
  step_status Hq.
  destruct (io_fetch e) as [|[|]]; try discriminate.
  step_status Hq.
  destruct (io_open_error e) as [m|]; try discriminate. cbn.
  step_status Hq. step_caption Hq.
  unfold notice_due, caption_for, spend_caption in *; cbn in *.
  destruct (cap_active (caption b));
    destruct (cap_remaining (caption b) - 1 <=? 0); cbn in *;
    try (destruct (io_notice_error e); try discriminate); cbn in *;
    rewrite Hf; cbn;
    step_completion Hq;
    (do 2 eexists; split; [reflexivity|]); frame_completion;
    repeat split; read_trace;
    destruct (io_completion_error e); reflexivity.
Qed.

Local Transparent status send_completion_notification take_caption.

(** X1: whatever the download, the file, the notice, the upload and the
    notifications do, [process_single_link] returns [True] or [False] and
    never raises. It returns [True] exactly when nothing failed, then adds
    one to [processed]; otherwise it appends the link to [failed]. It sends
    one completion event when that message is delivered and none otherwise,
    and leaves [remaining] and [all_links] alone. *)
Theorem link_outcome_recovered e url b :
  quiet e ->
  exists ok b' t,
    process_single_link e url b = (Ok ok, b', t)
    /\ (ok = true <-> failure_reason e b = None)
    /\ processed b' = (if ok then processed b + 1 else processed b)
    /\ failed b' = (if ok then failed b else failed b ++ [url])
    /\ remaining b' = remaining b
    /\ all_links b' = all_links b
    /\ completions t
       = match io_completion_error e with
         | Some _ => []
         | None =>
             [CompletionSent url ok
                (match failure_reason e b with
                 | Some msg => msg
                 | None => EmptyString
                 end)
                (processed b') (len (all_links b))
                (len (all_links b) - processed b')]
         end.
Proof.
  intros Hq.
  pose proof (link_keeps_remaining e url (quiet_cancellable e Hq) b) as Krem.
  pose proof (link_keeps_all_links e url (quiet_cancellable e Hq) b) as Kall.
  destruct (failure_reason e b) as [msg|] eqn:Hf.
  - destruct (process_single_link_fails e url b msg Hq Hf)
      as (b' & t & E & Hfail & Hproc & _ & Hcomp).
    rewrite E in Krem, Kall. cbn in Krem, Kall.
    exists false, b', t. rewrite Hproc.
    repeat split; try assumption; try discriminate.
  - destruct (process_single_link_goes_through e url b Hq Hf)
      as (b' & t & E & Hproc & Hfail & Hcomp).
    rewrite E in Krem, Kall. cbn in Krem, Kall.
    exists true, b', t. rewrite Hproc.
    repeat split; try assumption; try reflexivity.
Qed.

Lemma link_outcome_recovered_witness :
  exists ok b' t,
    process_single_link upload_fails "http://3" third_link_next = (Ok ok, b', t)
    /\ (ok = true <-> failure_reason upload_fails third_link_next = None).
Proof.
  destruct (link_outcome_recovered upload_fails "http://3"%string
              third_link_next (fun s => eq_refl))
    as (ok & b' & t & E & H & _).
  exists ok, b', t. split; assumption.
Defined.

(** ** The loop to its end *)

Lemma len_snoc (l : list string) x : len (l ++ [x]) = len l + 1.
Proof. unfold len. rewrite length_app. simpl. lia. Qed.

Lemma len_cons (l : list string) x : len (x :: l) = len l + 1.
Proof. unfold len. simpl List.length. lia. Qed.

Lemma iteration_quiet e b url rest :
  quiet e ->
  is_paused b = false ->
  is_processing b = true ->
  remaining b = url :: rest ->
  exists b' t,
    iteration e b = (Ok Continue, b', t)
    /\ remaining b' = rest
    /\ all_links b' = all_links b
    /\ is_paused b' = false
    /\ is_processing b' = true
    /\ start_time b' = start_time b
    /\ processed b <= processed b'
    /\ processed b' + len (failed b')
       = processed b + len (failed b) + (if is_url url then 1 else 0).
Proof.
  intros Hq Hp Ha Hr.
  rewrite (iteration_running e b url rest Hp Ha Hr).
  destruct (is_url url).
  - destruct (link_outcome_recovered e url b Hq)
      as (ok & b1 & t1 & E & _ & Hproc & Hfail & Hrem & Hall & _).
    pose proof (link_keeps_is_paused e url (quiet_cancellable e Hq) b) as K1.
    pose proof (link_keeps_is_processing e url (quiet_cancellable e Hq) b)
      as K2.
    pose proof (link_keeps_start_time e url (quiet_cancellable e Hq) b) as K3.
    rewrite E in K1, K2, K3. cbn in K1, K2, K3.
    rewrite E, (remove_link_head url rest b1) by congruence.
    do 2 eexists. split; [reflexivity|]. cbn.
    rewrite Hall, K1, K2, K3, Hp, Ha, Hproc, Hfail.
    repeat split; destruct ok; rewrite ?len_snoc; lia.
  - do 2 eexists. split; [reflexivity|]. cbn.
    repeat split; try assumption; lia.
Qed.

Lemma while_remaining_drains es :
  forall b,
    Forall quiet es ->
    is_paused b = false ->
    is_processing b = true ->
    (List.length (remaining b) <= List.length es)%nat ->
    exists b' t,
      while_remaining es b = (Ok tt, b', t)
      /\ remaining b' = []
      /\ all_links b' = all_links b
      /\ is_processing b' = true
      /\ start_time b' = start_time b
      /\ processed b <= processed b'
      /\ processed b' + len (failed b')
         = processed b + len (failed b)
           + len (filter is_url (remaining b)).
Proof.
  induction es as [|e es IH]; intros b Hq Hp Ha Hlen.
  - destruct (remaining b) as [|u l] eqn:Hr; [|simpl in Hlen; lia].
    exists b, []. simpl. rewrite Hr. simpl.
    repeat split; try assumption; unfold len; simpl; lia.
  - destruct (remaining b) as [|url rest] eqn:Hr.
    + exists b, []. simpl. rewrite Hr. simpl.
      repeat split; try assumption; unfold len; simpl; lia.
    + inversion Hq as [|? ? He Hes]; subst.
      destruct (iteration_quiet e b url rest He Hp Ha Hr)
        as (b1 & t1 & Hi & Hr1 & Hall1 & Hp1 & Ha1 & Hs1 & Hle1 & Hc1).
      assert (Hlen1 : (List.length (remaining b1) <= List.length es)%nat).
      { rewrite Hr1. simpl in Hlen. lia. }
      destruct (IH b1 Hes Hp1 Ha1 Hlen1)
        as (b2 & t2 & Hw & Hr2 & Hall2 & Ha2 & Hs2 & Hle2 & Hc2).
      exists b2, (t1 ++ t2).
      rewrite (while_remaining_step e es b b1 t1) by (congruence || exact Hi).
      rewrite Hw. split; [reflexivity|].
      rewrite Hr1 in Hc2.
      repeat split; try congruence; try lia.
      simpl filter. destruct (is_url url); rewrite ?len_cons; lia.
Qed.

(** X2: a loop that is not paused and is given one iteration per queued
    link runs to the end of the queue: [remaining] is empty, [all_links] is
    unchanged, and every link with an [http://] or [https://] prefix has
    been counted exactly once, in [processed] or in [failed]. *)
Theorem loop_drains_queue es b :
  Forall quiet es ->
  is_paused b = false ->
  is_processing b = true ->
  (List.length (remaining b) <= List.length es)%nat ->
  exists b' t,
    while_remaining es b = (Ok tt, b', t)
    /\ remaining b' = []
    /\ all_links b' = all_links b
    /\ processed b <= processed b'
    /\ processed b' + len (failed b')
       = processed b + len (failed b) + len (filter is_url (remaining b)).
Proof.
  intros Hq Hp Ha Hlen.
  destruct (while_remaining_drains es b Hq Hp Ha Hlen)
    as (b' & t & E & H1 & H2 & _ & _ & H3 & H4).
  exists b', t. repeat split; assumption.
Qed.

Lemma loop_drains_queue_witness :
  exists b' t,
    while_remaining [too_large; calm; upload_fails]
      (current_batch (enqueued scenario_a)) = (Ok tt, b', t)
    /\ remaining b' = [].
Proof.
  destruct (loop_drains_queue [too_large; calm; upload_fails]
              (current_batch (enqueued scenario_a)))
    as (b' & t & E & H & _).
  - repeat constructor.
  - reflexivity.
  - reflexivity.
  - simpl. lia.
  - exists b', t. split; assumption.
Defined.

(** ** What the iterations send *)

Section Emits.

Variable P : io -> Prop.

Lemma emits_ret {A : Type} (a : A) : emits P (ret a).
Proof. intros b. constructor. Qed.

Lemma emits_get : emits P get.
Proof. intros b. constructor. Qed.

Lemma emits_modify g : emits P (modify g).
Proof. intros b. constructor. Qed.

Lemma emits_raise {A : Type} x : emits P (@raise A x).
Proof. intros b. constructor. Qed.

Lemma emits_at_await a : emits P (at_await a).
Proof. intros b. destruct a; constructor. Qed.

Lemma emits_emit x : P x -> emits P (emit x).
Proof. intros Hx b. repeat constructor. exact Hx. Qed.

Lemma emits_bind {A B : Type} (m : M A) (k : A -> M B) :
  emits P m -> (forall a, emits P (k a)) -> emits P (bind m k).
Proof.
  intros Hm Hk b. unfold bind. specialize (Hm b).
  destruct (m b) as [[[a| |] b1] t1]; simpl in *; auto.
  specialize (Hk a b1). destruct (k a b1) as [[r b2] t2]. simpl in *.
  apply Forall_app. split; assumption.
Qed.

Lemma emits_try_catch {A : Type} (m : M A) (h : exn -> M A) :
  emits P m -> (forall x, emits P (h x)) -> emits P (try_catch m h).
Proof.
  intros Hm Hh b. unfold try_catch. specialize (Hm b).
  destruct (m b) as [[[a|x|] b1] t1]; simpl in *; auto.
  specialize (Hh x b1). destruct (h x b1) as [[r b2] t2]. simpl in *.
  apply Forall_app. split; assumption.
Qed.

Lemma emits_try_except {A : Type} (m : M A) (h : string -> M A) :
  emits P m -> (forall x, emits P (h x)) -> emits P (try_except m h).
Proof.
  intros Hm Hh b. unfold try_except. specialize (Hm b).
  destruct (m b) as [[[a|[msg|]|] b1] t1]; simpl in *; auto.
  specialize (Hh msg b1). destruct (h msg b1) as [[r b2] t2]. simpl in *.
  apply Forall_app. split; assumption.
Qed.

Lemma emits_try_finally {A : Type} (m : M A) (g : M unit) :
  emits P m -> emits P g -> emits P (try_finally m g).
Proof.
  intros Hm Hg b. unfold try_finally. specialize (Hm b).
  destruct (m b) as [[r b1] t1]. simpl in *.
  specialize (Hg b1). destruct (g b1) as [[r2 b2] t2]. simpl in *.
  destruct r; simpl; auto; apply Forall_app; split; assumption.
Qed.

Hypothesis P_link : forall x, link_output x = true -> P x.

Ltac emits :=
  repeat first
    [ progress intros
    | progress cbv zeta
    | assumption
    | apply emits_ret
    | apply emits_get
    | apply emits_modify
    | apply emits_raise
    | apply emits_at_await
    | apply emits_emit; apply P_link; reflexivity
    | apply emits_bind
    | apply emits_try_except
    | apply emits_try_catch
    | apply emits_try_finally
    | match goal with
      | |- emits P (match ?x with _ => _ end) => destruct x
      | |- emits P (if ?x then _ else _) => destruct x
      end ].

Lemma emits_update_status_message a d t :
  emits P (update_status_message a d t).
Proof. unfold update_status_message. emits. Qed.

Lemma emits_send_remain_links e : emits P (send_remain_links e).
Proof. unfold send_remain_links. emits. Qed.

Lemma emits_send_completion e url success msg :
  emits P (send_completion_notification e url success msg).
Proof.
  pose proof (emits_send_remain_links e).
  unfold send_completion_notification. emits.
Qed.

Lemma emits_take_caption e : emits P (take_caption e).
Proof. unfold take_caption. emits. Qed.

Lemma emits_process_single_link e url : emits P (process_single_link e url).
Proof.
  pose proof (fun ph t =>
                emits_update_status_message (arrive e (AtStatus ph))
                  (io_status e ph) t) as Hs.
  pose proof (emits_send_completion e) as Hc.
  pose proof (emits_take_caption e) as Ht.
  unfold process_single_link, status. emits.
Qed.

Lemma emits_wait_while_paused ticks : emits P (wait_while_paused ticks).
Proof.
  induction ticks as [|a ticks IH]; intros b; simpl.
  - destruct (is_paused b); constructor.
  - destruct (is_paused b); [|constructor].
    apply (emits_bind _ _ (emits_at_await a) (fun _ => IH)).
Qed.

Lemma emits_iteration e : emits P (iteration e).
Proof.
  pose proof (emits_wait_while_paused (sleeps e)).
  pose proof (emits_process_single_link e).
  unfold iteration, remove_link. emits.
Qed.

Lemma emits_while_remaining es : emits P (while_remaining es).
Proof.
  induction es as [|e es IH]; intros b; simpl.
  - destruct (nonempty (remaining b)); constructor.
  - destruct (nonempty (remaining b)); [|constructor].
    apply (emits_bind (iteration e)); [apply emits_iteration|].
    intros []; [exact IH | apply emits_ret].
Qed.

End Emits.

Lemma filter_none (p : io -> bool) t :
  Forall (fun x => p x = false) t -> filter p t = [].
Proof.
  induction 1 as [|x t Hx _ IH]; [reflexivity|]. simpl. rewrite Hx. exact IH.
Qed.

Lemma loop_sends_no_summary es b :
  filter is_summary (snd (while_remaining es b)) = []
  /\ filter is_fatal (snd (while_remaining es b)) = [].
Proof.
  split; apply filter_none.
  - apply (emits_while_remaining (fun x => is_summary x = false)).
    intros []; simpl; congruence.
  - apply (emits_while_remaining (fun x => is_fatal x = false)).
    intros []; simpl; congruence.
Qed.

(** X3: a whole run of [process_batch] that is not paused, is given one
    iteration per queued link and can deliver its last message ends with
    the summary as its last output: the summary carries the final
    [processed] and the length of the final [failed], the queue is empty and
    [is_processing] is false. *)
Theorem natural_exit_sends_summary w es b :
  Forall quiet es ->
  arrive_final w = nobody ->
  io_final_error w = None ->
  is_paused b = false ->
  (List.length (remaining b) <= List.length es)%nat ->
  exists b' t,
    process_batch w es b
    = (Ok tt, b',
       t ++ [SummarySent (processed b') (len (failed b'))
               (now_end w - now_start w)])
    /\ filter is_summary t = []
    /\ filter is_fatal t = []
    /\ remaining b' = []
    /\ is_processing b' = false
    /\ processed b' + len (failed b')
       = processed b + len (failed b) + len (filter is_url (remaining b)).
Proof.
  intros Hq Hfin Hok Hp Hlen.
  destruct (while_remaining_drains es
              (set_start_time (Some (now_start w)) (set_is_processing true b))
              Hq Hp eq_refl Hlen)
    as (b1 & t1 & Hw & Hr & _ & Ha & Hs & _ & Hc).
  destruct (loop_sends_no_summary es
              (set_start_time (Some (now_start w)) (set_is_processing true b)))
    as (Hns & Hnf).
  rewrite Hw in Hns, Hnf. cbn [snd] in Hns, Hnf.
  assert (G : guarded_loop w es
                (set_start_time (Some (now_start w))
                   (set_is_processing true b))
              = (Ok tt, b1,
                 t1 ++ [SummarySent (processed b1) (len (failed b1))
                          (now_end w - now_start w)])).
  { unfold guarded_loop, try_catch. rewrite bind_run, Hw.
    unfold final_report, bind, get. cbv beta iota.
    rewrite Ha, Hs. cbn [start_time set_start_time]. rewrite Hfin, Hok.
    reflexivity. }
  exists (set_status_message_id None (set_is_processing false b1)), t1.
  split.
  - unfold process_batch, bind, modify, try_finally. cbv beta iota.
    rewrite G. cbn. rewrite !app_nil_r. reflexivity.
  - cbn. repeat split; assumption.
Qed.

Lemma natural_exit_sends_summary_witness :
  exists b' t,
    process_batch world [calm; calm; calm] (current_batch (enqueued scenario_a))
    = (Ok tt, b',
       t ++ [SummarySent (processed b') (len (failed b'))
               (now_end world - now_start world)]).
Proof.
  destruct (natural_exit_sends_summary world [calm; calm; calm]
              (current_batch (enqueued scenario_a)))
    as (b' & t & E & _).
  - repeat constructor.
  - reflexivity.
  - reflexivity.
  - reflexivity.
  - simpl. lia.
  - exists b', t. exact E.
Defined.


(** ** Pause, cancellation and the error exit *)

Lemma wait_while_paused_parks ticks b :
  is_paused b = true ->
  Forall (fun a => a = nobody) ticks ->
  wait_while_paused ticks b = (Pending, b, []).
Proof.
  intros Hp Ht. induction Ht as [|a ticks Ha _ IH]; simpl; rewrite Hp.
  - reflexivity.
  - subst a. rewrite bind_run. unfold at_await, nobody, modify.
    cbv beta iota. rewrite IH. reflexivity.
Qed.

(** X4: while [is_paused] is set and no handler arrives, the loop only
    sleeps: however many sleeps go by, no link is attempted or removed,
    nothing is sent and the batch stays as it is. *)
Theorem paused_loop_only_sleeps e es b :
  is_paused b = true ->
  remaining b <> [] ->
  Forall (fun a => a = nobody) (sleeps e) ->
  iteration e b = (Pending, b, [])
  /\ while_remaining (e :: es) b = (Pending, b, []).
Proof.
  intros Hp Hr Ht.
  assert (Hi : iteration e b = (Pending, b, [])).
  { unfold iteration. rewrite bind_run.
    rewrite (wait_while_paused_parks (sleeps e) b Hp Ht). reflexivity. }
  split; [exact Hi|].
  simpl. destruct (remaining b); [congruence|]. simpl.
  rewrite bind_run, Hi. reflexivity.
Qed.

Lemma paused_loop_only_sleeps_witness :
  iteration
    (mkItemEnv [nobody; nobody; nobody] (fun _ => nobody) (fun _ => Some 7)
       (FetchPath true) None None None None None)
    (set_is_paused true third_link_next)
  = (Pending, set_is_paused true third_link_next, []).
Proof.
  refine (proj1 (paused_loop_only_sleeps
                   (mkItemEnv [nobody; nobody; nobody] (fun _ => nobody)
                      (fun _ => Some 7) (FetchPath true) None None None None
                      None)
                   [] (set_is_paused true third_link_next) eq_refl _ _)).
  - discriminate.
  - repeat constructor.
Defined.

Lemma link_output_not_summary x : link_output x = true -> is_summary x = false.
Proof. destruct x; simpl; congruence. Qed.

Lemma link_output_not_fatal x : link_output x = true -> is_fatal x = false.
Proof. destruct x; simpl; congruence. Qed.

(** X5: when the processing of the head link is cancelled,
    [process_batch] ends without an error: the link is still the head of
    [remaining], nothing more is sent (no summary, no error message) and
    [is_processing] is false. *)
Theorem cancelled_link_stays_queued w e es b url rest b1 t1 :
  cancellable e ->
  is_paused b = false ->
  remaining b = url :: rest ->
  is_url url = true ->
  process_single_link e url
    (set_start_time (Some (now_start w)) (set_is_processing true b))
  = (Raise CancelledError, b1, t1) ->
  process_batch w (e :: es) b
  = (Ok tt, set_status_message_id None (set_is_processing false b1), t1)
  /\ remaining b1 = url :: rest
  /\ filter is_summary t1 = []
  /\ filter is_fatal t1 = [].
Proof.
  intros He Hp Hr Hu E.
  pose proof (link_keeps_remaining e url He
                (set_start_time (Some (now_start w))
                   (set_is_processing true b))) as K.
  rewrite E in K. cbn in K. rewrite Hr in K.
  assert (Hi : iteration e
                 (set_start_time (Some (now_start w))
                    (set_is_processing true b))
               = (Raise CancelledError, b1, t1)).
  { rewrite (iteration_running e
               (set_start_time (Some (now_start w))
                  (set_is_processing true b)) url rest Hp eq_refl Hr), Hu, E.
    reflexivity. }
  assert (G : guarded_loop w (e :: es)
                (set_start_time (Some (now_start w))
                   (set_is_processing true b))
              = (Ok tt, b1, t1 ++ [])).
  { unfold guarded_loop, try_catch. rewrite bind_run.
    cbn [while_remaining]. cbn [remaining set_start_time set_is_processing].
    rewrite Hr. cbn [nonempty]. rewrite bind_run, Hi. reflexivity. }
  split; [|split; [exact K|]].
  - unfold process_batch, bind, modify, try_finally. cbv beta iota.
    rewrite G. cbn. rewrite !app_nil_r. reflexivity.
  - pose proof (emits_process_single_link (fun x => is_summary x = false)
                  link_output_not_summary e url
                  (set_start_time (Some (now_start w))
                     (set_is_processing true b))) as S.
    pose proof (emits_process_single_link (fun x => is_fatal x = false)
                  link_output_not_fatal e url
                  (set_start_time (Some (now_start w))
                     (set_is_processing true b))) as F.
    rewrite E in S, F. cbn [snd] in S, F.
    split; apply filter_none; assumption.
Qed.

Lemma cancelled_link_stays_queued_witness :
  exists b1 t1,
    process_batch world [cancel_during_upload]
      (current_batch (enqueued ["http://a"%string]))
    = (Ok tt, set_status_message_id None (set_is_processing false b1), t1)
    /\ remaining b1 = ["http://a"%string].
Proof.
  destruct (process_single_link cancel_during_upload "http://a"%string
              (set_start_time (Some (now_start world))
                 (set_is_processing true
                    (current_batch (enqueued ["http://a"%string])))))
    as [[r b1] t1] eqn:E.
  assert (Hr : r = Raise CancelledError).
  { vm_compute in E. injection E as <- _ _. reflexivity. }
  subst r.
  destruct (cancelled_link_stays_queued world cancel_during_upload []
              (current_batch (enqueued ["http://a"%string]))
              "http://a"%string [] b1 t1)
    as (H1 & H2 & _).
  - intros []; [left | left | right | left | left]; reflexivity.
  - reflexivity.
  - reflexivity.
  - reflexivity.
  - exact E.
  - exists b1, t1. split; assumption.
Defined.

(** X6: when the queue has been worked off but the summary cannot be
    delivered, the error is caught at the loop boundary: the loop reports
    it in one error message, and [is_processing] is cleared whether or not
    that message goes out. *)
Theorem failed_summary_is_reported w es b msg :
  Forall quiet es ->
  arrive_final w = nobody ->
  arrive_fatal w = nobody ->
  io_final_error w = Some msg ->
  is_paused b = false ->
  (List.length (remaining b) <= List.length es)%nat ->
  exists b' t,
    process_batch w es b
    = match io_fatal_error w with
      | None => (Ok tt, b', t ++ [FatalSent msg])
      | Some msg' => (Raise (Exception msg'), b', t)
      end
    /\ filter is_summary t = []
    /\ filter is_fatal t = []
    /\ remaining b' = []
    /\ is_processing b' = false.
Proof.
  intros Hq Hfin Hfat Herr Hp Hlen.
  destruct (while_remaining_drains es
              (set_start_time (Some (now_start w)) (set_is_processing true b))
              Hq Hp eq_refl Hlen)
    as (b1 & t1 & Hw & Hr & _ & Ha & Hs & _ & _).
  destruct (loop_sends_no_summary es
              (set_start_time (Some (now_start w)) (set_is_processing true b)))
    as (Hns & Hnf).
  rewrite Hw in Hns, Hnf. cbn [snd] in Hns, Hnf.
  assert (G : guarded_loop w es
                (set_start_time (Some (now_start w))
                   (set_is_processing true b))
              = match io_fatal_error w with
                | None => (Ok tt, b1, t1 ++ [FatalSent msg])
                | Some msg' => (Raise (Exception msg'), b1, t1)
                end).
  { unfold guarded_loop, try_catch. rewrite bind_run, Hw.
    unfold final_report, bind, get. cbv beta iota.
    rewrite Ha, Hs. cbn [start_time set_start_time]. rewrite Hfin, Herr, Hfat.
    destruct (io_fatal_error w); cbn; rewrite ?app_nil_r; reflexivity. }
  exists (set_status_message_id None (set_is_processing false b1)), t1.
  split.
  - unfold process_batch, bind, modify, try_finally. cbv beta iota.
    rewrite G. destruct (io_fatal_error w); cbn; rewrite !app_nil_r;
      reflexivity.
  - cbn. repeat split; assumption.
Qed.

Lemma failed_summary_is_reported_witness :
  exists b' t,
    process_batch (mkLoopEnv 100 160 nobody (Some "Timed out"%string) nobody None)
      [calm] (current_batch (enqueued ["http://a"%string]))
    = (Ok tt, b', t ++ [FatalSent "Timed out"]).
Proof.
  destruct (failed_summary_is_reported
              (mkLoopEnv 100 160 nobody (Some "Timed out"%string) nobody None)
              [calm] (current_batch (enqueued ["http://a"%string]))
              "Timed out"%string)
    as (b' & t & E & _).
  - repeat constructor.
  - reflexivity.
  - reflexivity.
  - reflexivity.
  - reflexivity.
  - simpl. lia.
  - exists b', t. exact E.
Defined.

(** ** Pause and resume *)




(** X8: [/startnow] on a paused bot always leaves it unpaused and
    processing; it creates a new task exactly when the loop had stopped, and
    it touches neither the queue nor the counters. *)
Theorem resume_unpauses_and_restarts d s :
  is_paused (current_batch s) = true ->
  is_paused (current_batch (fst (resume_processing d s))) = false
  /\ is_processing (current_batch (fst (resume_processing d s))) = true
  /\ processing_task (fst (resume_processing d s))
     = (if is_processing (current_batch s) then processing_task s
        else Scheduled)
  /\ remaining (current_batch (fst (resume_processing d s)))
     = remaining (current_batch s)
  /\ all_links (current_batch (fst (resume_processing d s)))
     = all_links (current_batch s)
  /\ processed (current_batch (fst (resume_processing d s)))
     = processed (current_batch s)
  /\ failed (current_batch (fst (resume_processing d s)))
     = failed (current_batch s).
Proof.
  intros Hp. unfold resume_processing. rewrite Hp. cbn [negb].
  cbn [is_processing set_is_paused].
  destruct (is_processing (current_batch s)) eqn:Ha; cbn [negb];
    match goal with
    | |- context [run_status ?d ?t ?x] =>
        destruct (run_status_frame d t x) as (sid & tr & E); rewrite E
    end;
    cbn; rewrite ?Ha; repeat split; reflexivity.
Qed.

Lemma resume_unpauses_and_restarts_witness :
  processing_task (fst (resume_processing (Some 7) paused_at_exit)) = Scheduled.
Proof.
  exact (proj1 (proj2 (proj2
    (resume_unpauses_and_restarts (Some 7) paused_at_exit eq_refl)))).
Defined.

(** ** Enqueueing *)

(** X9: a caption set while no batch exists is thrown away by the enqueue
    that starts the batch: the new batch begins with captions off. *)
Theorem caption_lost_when_batch_starts during n text links uid s :
  all_links (current_batch s) = [] ->
  caption (current_batch
             (fst (add_links_to_queue during links uid
                     (fst (set_caption n text s)))))
  = no_caption
  /\ remaining (current_batch
                  (fst (add_links_to_queue during links uid
                          (fst (set_caption n text s)))))
     = links.
Proof.
  intros Hall. unfold set_caption.
  destruct (n <=? 0); cbn [fst]; unfold add_links_to_queue;
    cbn [current_batch all_links set_caption_settings processing_task];
    rewrite Hall; cbn; split; reflexivity.
Qed.

Lemma caption_lost_when_batch_starts_witness :
  caption (current_batch
             (fst (add_links_to_queue idle five_links operator
                     (fst (set_caption 3 "X" initial_bot)))))
  = no_caption.
Proof.
  exact (proj1 (caption_lost_when_batch_starts idle 3 "X"%string five_links
                  operator initial_bot eq_refl)).
Defined.

(** Once [all_links] is not empty, an enqueue during whose reply nothing
    runs appends the new links, in order, to both [all_links] and
    [remaining] and keeps the counters, the owner, the caption and the pause
    flag; it creates a task only when the bot is not processing and the
    queue is then non-empty. *)
Lemma enqueue_appends links uid s :
  all_links (current_batch s) <> [] ->
  all_links (current_batch (fst (add_links_to_queue idle links uid s)))
  = all_links (current_batch s) ++ links
  /\ remaining (current_batch (fst (add_links_to_queue idle links uid s)))
     = remaining (current_batch s) ++ links
  /\ processed (current_batch (fst (add_links_to_queue idle links uid s)))
     = processed (current_batch s)
  /\ failed (current_batch (fst (add_links_to_queue idle links uid s)))
     = failed (current_batch s)
  /\ user_id (current_batch (fst (add_links_to_queue idle links uid s)))
     = user_id (current_batch s)
  /\ caption (current_batch (fst (add_links_to_queue idle links uid s)))
     = caption (current_batch s)
  /\ is_paused (current_batch (fst (add_links_to_queue idle links uid s)))
     = is_paused (current_batch s)
  /\ processing_task (fst (add_links_to_queue idle links uid s))
     = (if is_processing (current_batch s) then processing_task s
        else if nonempty (remaining (current_batch s) ++ links) then Scheduled
        else processing_task s)
  /\ is_processing (current_batch (fst (add_links_to_queue idle links uid s)))
     = is_processing (current_batch s)
       || nonempty (remaining (current_batch s) ++ links).
Proof.
  intros Hall.
  assert (Hne : nonempty (all_links (current_batch s)) = true).
  { destruct (all_links (current_batch s)); [congruence | reflexivity]. }
  unfold add_links_to_queue, idle. rewrite Hne. cbn [negb].
  cbn [current_batch is_processing set_remaining set_all_links remaining
       all_links].
  destruct (is_processing (current_batch s)) eqn:Ha; cbn [negb andb orb].
  - cbn. rewrite ?Ha. repeat split.
  - destruct (nonempty (remaining (current_batch s) ++ links)); cbn;
      rewrite ?Ha; repeat split.
Qed.

(** X10: a batch whose queue has been worked off cannot be reset: with
    [all_links] non-empty and [remaining] empty, no command empties
    [all_links] or lowers [processed] or [failed] ([/clean] and [/skip]
    answer that the queue is empty), so later links join the old batch and
    its counters go on. *)
Theorem finished_batch_is_never_reset c s :
  all_links (current_batch s) <> [] ->
  remaining (current_batch s) = [] ->
  all_links (current_batch (fst (handle c s))) <> []
  /\ processed (current_batch (fst (handle c s))) = processed (current_batch s)
  /\ failed (current_batch (fst (handle c s))) = failed (current_batch s).
Proof.
  intros Hall Hrem.
  destruct c as [links uid|d|d| |n|n text|]; cbn [handle].
  - destruct (enqueue_appends links uid s Hall) as (H1 & _ & H2 & H3 & _).
    rewrite H1, H2, H3. repeat split.
    destruct (all_links (current_batch s)); [congruence | discriminate].
  - unfold pause_processing.
    destruct (is_processing (current_batch s)); cbn; auto.
    destruct (is_paused (current_batch s)); cbn; auto.
    match goal with
    | |- context [run_status ?d ?t ?x] =>
        destruct (run_status_frame d t x) as (sid & tr & E); rewrite E
    end.
    cbn. auto.
  - unfold resume_processing.
    destruct (is_paused (current_batch s)); cbn; auto.
    match goal with
    | |- context [run_status ?d ?t ?x] =>
        destruct (run_status_frame d t x) as (sid & tr & E); rewrite E
    end.
    cbn. destruct (is_processing (current_batch s)); cbn; auto.
  - unfold clear_queue. rewrite Hrem. cbn. auto.
  - unfold skip_links, clear_queue, idle. rewrite Hrem.
    destruct (n <=? 0) eqn:Hn; cbn; auto.
    destruct (is_processing (current_batch s)); cbn; auto.
    assert (H0 : (len (@nil string) <=? n) = true).
    { apply Z.leb_le. apply Z.leb_gt in Hn. unfold len. simpl. lia. }
    rewrite H0. cbn. auto.
  - unfold set_caption. destruct (n <=? 0); cbn; auto.
  - unfold show_remain. rewrite Hrem. cbn. auto.
Qed.

Lemma finished_batch_is_never_reset_witness :
  processed (current_batch (fst (handle Clear paused_at_exit)))
  = processed (current_batch paused_at_exit).
Proof.
  refine (proj1 (proj2 (finished_batch_is_never_reset Clear paused_at_exit
                          _ eq_refl))).
  discriminate.
Defined.

(** ** The queue and the counters *)

Lemma queue_invariant_fields b b' :
  all_links b' = all_links b ->
  remaining b' = remaining b ->
  processed b' = processed b ->
  failed b' = failed b ->
  queue_invariant b -> queue_invariant b'.
Proof.
  unfold queue_invariant, queue_suffix, within_total.
  intros -> -> -> ->. exact (fun H => H).
Qed.

Lemma queue_invariant_advance b b' url rest :
  remaining b = url :: rest ->
  remaining b' = rest ->
  all_links b' = all_links b ->
  processed b' + len (failed b') <= processed b + len (failed b) + 1 ->
  queue_invariant b -> queue_invariant b'.
Proof.
  unfold queue_invariant, queue_suffix, within_total.
  intros Hr Hr' Hall Hc [[gone Hs] Hw]. rewrite Hr', Hall. split.
  - exists (gone ++ [url]). rewrite Hs, Hr, <- app_assoc. reflexivity.
  - rewrite Hr, len_cons in Hw. lia.
Qed.

Lemma iteration_keeps_queue_invariant e b :
  silent e ->
  queue_invariant b ->
  queue_invariant (snd (fst (iteration e b))).
Proof.
  intros [Hq Hs] Hinv.
  destruct (is_paused b) eqn:Hp.
  - unfold iteration. rewrite bind_run.
    rewrite (wait_while_paused_parks (sleeps e) b Hp Hs). exact Hinv.
  - destruct (is_processing b) eqn:Ha.
    + destruct (remaining b) as [|url rest] eqn:Hr.
      * unfold iteration. rewrite bind_run.
        rewrite (wait_while_paused_running (sleeps e) b Hp).
        rewrite bind_run. unfold get at 1. cbv beta iota.
        rewrite Ha, Hr. exact Hinv.
      * destruct (iteration_quiet e b url rest Hq Hp Ha Hr)
          as (b' & t & E & Hr' & Hall & _ & _ & _ & _ & Hc).
        rewrite E. cbn [fst snd].
        apply (queue_invariant_advance b b' url rest Hr Hr' Hall); [|exact Hinv].
        destruct (is_url url); lia.
    + unfold iteration. rewrite bind_run.
      rewrite (wait_while_paused_running (sleeps e) b Hp).
      rewrite bind_run. unfold get at 1. cbv beta iota.
      rewrite Ha. exact Hinv.
Qed.

Lemma while_remaining_keeps_queue_invariant es :
  Forall silent es ->
  forall b, queue_invariant b ->
            queue_invariant (snd (fst (while_remaining es b))).
Proof.
  induction 1 as [|e es He _ IH]; intros b Hinv; simpl.
  - destruct (nonempty (remaining b)); exact Hinv.
  - destruct (nonempty (remaining b)); [|exact Hinv].
    rewrite bind_run.
    pose proof (iteration_keeps_queue_invariant e b He Hinv) as Hi.
    destruct (iteration e b) as [[[[]| |] b1] t1]; cbn [fst snd] in *;
      try exact Hi.
    specialize (IH b1 Hi).
    destruct (while_remaining es b1) as [[r b2] t2]. exact IH.
Qed.

Lemma final_report_keeps_batch w b :
  arrive_final w = nobody -> snd (fst (final_report w b)) = b.
Proof.
  intros Hf. unfold final_report, bind, get. cbv beta iota. rewrite Hf.
  destruct (is_processing b); [|reflexivity].
  destruct (start_time b); [|reflexivity].
  destruct (io_final_error w); reflexivity.
Qed.

Lemma process_batch_keeps_queue_invariant w es b :
  silent_world w ->
  Forall silent es ->
  queue_invariant b ->
  queue_invariant (snd (fst (process_batch w es b))).
Proof.
  intros [Hfin Hfat] Hes Hinv.
  assert (H0 : queue_invariant
                 (set_start_time (Some (now_start w))
                    (set_is_processing true b))).
  { revert Hinv. apply queue_invariant_fields; reflexivity. }
  pose proof (while_remaining_keeps_queue_invariant es Hes _ H0) as Hw.
  unfold process_batch, bind at 1 2, modify at 1 2, try_finally.
  cbv beta iota.
  unfold guarded_loop, try_catch. rewrite bind_run.
  destruct (while_remaining es _) as [[[[]|x|] b1] t1]; cbn [fst snd] in Hw.
  - pose proof (final_report_keeps_batch w b1 Hfin) as Hb.
    destruct (final_report w b1) as [[[[]|[msg|]|] b2] t2];
      cbn [fst snd] in Hb; subst b2; rewrite ?Hfat; cbn;
      try (destruct (io_fatal_error w); cbn);
      revert Hw; apply queue_invariant_fields; reflexivity.
  - destruct x as [msg|]; rewrite ?Hfat; cbn;
      try (destruct (io_fatal_error w); cbn);
      revert Hw; apply queue_invariant_fields; reflexivity.
  - exact Hw.
Qed.

Lemma handle_keeps_queue_invariant c s :
  queue_invariant (current_batch s) ->
  queue_invariant (current_batch (fst (handle c s))).
Proof.
  intros Hinv.
  destruct c as [links uid|d|d| |n|n text|]; cbn [handle].
  - unfold add_links_to_queue, idle.
    destruct (nonempty (all_links (current_batch s))); cbn [negb].
    + assert (H : queue_invariant
                    (set_remaining (remaining (current_batch s) ++ links)
                       (set_all_links (all_links (current_batch s) ++ links)
                          (current_batch s)))).
      { destruct Hinv as [[gone Hs] Hw]. split.
        - exists gone. cbn. rewrite Hs at 1. symmetry. apply app_assoc.
        - unfold within_total in *. cbn. unfold len in *.
          rewrite !length_app. lia. }
      cbn [current_batch is_processing set_remaining set_all_links remaining].
      destruct (negb (is_processing (current_batch s))
                && nonempty (remaining (current_batch s) ++ links));
        cbn [fst current_batch]; [|exact H].
      revert H. apply queue_invariant_fields; reflexivity.
    + cbn. split.
      * exists []. reflexivity.
      * unfold within_total. cbn. unfold len. simpl. lia.
  - unfold pause_processing.
    destruct (is_processing (current_batch s)); cbn; auto.
    destruct (is_paused (current_batch s)); cbn; auto.
    match goal with
    | |- context [run_status ?d ?t ?x] =>
        destruct (run_status_frame d t x) as (sid & tr & E); rewrite E
    end.
    cbn. revert Hinv. apply queue_invariant_fields; reflexivity.
  - unfold resume_processing.
    destruct (is_paused (current_batch s)); cbn; auto.
    match goal with
    | |- context [run_status ?d ?t ?x] =>
        destruct (run_status_frame d t x) as (sid & tr & E); rewrite E
    end.
    cbn. revert Hinv.
    destruct (is_processing (current_batch s));
      apply queue_invariant_fields; reflexivity.
  - unfold clear_queue.
    destruct (nonempty (remaining (current_batch s))); cbn; auto.
    split; [exists []; reflexivity | unfold within_total, len; simpl; lia].
  - unfold skip_links, idle.
    destruct (n <=? 0) eqn:Hn; cbn [fst]; auto.
    destruct (is_processing (current_batch s)); cbn [negb fst]; auto.
    destruct (len (remaining (current_batch s)) <=? n) eqn:Hl.
    + unfold clear_queue.
      destruct (nonempty (remaining (current_batch s))); cbn; auto.
      split; [exists []; reflexivity | unfold within_total, len; simpl; lia].
    + destruct (cancel_and_await_frame s) as (Hr & Hp & Hf & Ha).
      cbn. unfold queue_invariant, queue_suffix, within_total. cbn.
      rewrite Hr, Hp, Hf, Ha.
      destruct Hinv as [[gone Hs] Hw]. unfold within_total in Hw.
      apply Z.leb_gt in Hn, Hl. split.
      * exists (gone ++ firstn (Z.to_nat n) (remaining (current_batch s))).
        rewrite <- app_assoc, firstn_skipn. exact Hs.
      * unfold len in *. rewrite length_skipn. lia.
  - unfold set_caption. destruct (n <=? 0); cbn; auto.
  - unfold show_remain.
    destruct (len (remaining (current_batch s)) =? 0); cbn; auto.
Qed.

(** X11: two facts about the queue hold at the start and are kept by
    every command and by every run of the loop in which no handler
    interferes: [remaining] is what is left of [all_links] (the loop only
    takes links from the front, an enqueue only adds at the back), and
    the links accounted for never outnumber the links received,
    [processed + |failed| + |remaining| <= |all_links|]. *)
Theorem queue_invariant_kept c s w es :
  queue_invariant (current_batch s) ->
  silent_world w ->
  Forall silent es ->
  queue_invariant (current_batch initial_bot)
  /\ queue_invariant (current_batch (fst (handle c s)))
  /\ queue_invariant (snd (fst (process_batch w es (current_batch s)))).
Proof.
  intros Hinv Hw Hes. split; [|split].
  - split; [exists []; reflexivity | unfold within_total, len; simpl; lia].
  - exact (handle_keeps_queue_invariant c s Hinv).
  - exact (process_batch_keeps_queue_invariant w es _ Hw Hes Hinv).
Qed.

Lemma queue_invariant_kept_witness :
  queue_invariant (current_batch (fst (handle (Skip 7) two_done)))
  /\ queue_invariant
       (snd (fst (process_batch world [too_large; calm]
                    (current_batch two_done)))).
Proof.
  refine (proj2 (queue_invariant_kept (Skip 7) two_done world
                   [too_large; calm] _ _ _)).
  - split.
    + exists ["http://1"%string; "http://2"%string]. reflexivity.
    + vm_compute. discriminate.
  - split; reflexivity.
  - repeat constructor; intros x; reflexivity.
Defined.

(** ** The command surface *)

(** X12: [/skip] and [/cap] change the bot only when their first argument
    passes [str.isdigit], [int] converts it and the number is greater than
    zero, whatever the two functions make of the text. A missing argument,
    one that [isdigit] or [int] rejects, or a zero leaves everything as it
    is. *)
Theorem counts_must_be_positive isdigit int during args s :
  fst (skip_command isdigit int during args s) <> s
  \/ fst (cap_command isdigit int args s) <> s ->
  exists a rest count,
    args = a :: rest /\ isdigit a = true /\ int a = Some count /\ 0 < count.
Proof.
  intros H.
  destruct args as [|a rest];
    [destruct H as [H|H]; exfalso; apply H; reflexivity|].
  destruct (isdigit a) eqn:Hd.
  - destruct (int a) as [count|] eqn:Hi.
    + exists a, rest, count. repeat split; try assumption.
      destruct (count <=? 0) eqn:Hz; [|apply Z.leb_gt in Hz; exact Hz].
      exfalso. destruct H as [H|H]; apply H.
      * unfold skip_command. rewrite Hd, Hi. cbn [negb].
        unfold skip_links. rewrite Hz. reflexivity.
      * unfold cap_command. destruct rest; [reflexivity|].
        rewrite Hd, Hi. cbn [negb]. unfold set_caption. rewrite Hz.
        reflexivity.
    + exfalso. destruct H as [H|H]; apply H.
      * unfold skip_command. rewrite Hd, Hi. reflexivity.
      * unfold cap_command. destruct rest; [reflexivity|].
        rewrite Hd, Hi. reflexivity.
  - exfalso. destruct H as [H|H]; apply H.
    + unfold skip_command. rewrite Hd. reflexivity.
    + unfold cap_command. destruct rest; [reflexivity|].
      rewrite Hd. reflexivity.
Qed.

Lemma counts_must_be_positive_witness :
  exists a rest count,
    ["7"%string] = a :: rest /\ ascii_isdigit a = true
    /\ ascii_int a = Some count /\ 0 < count.
Proof.
  apply (counts_must_be_positive ascii_isdigit ascii_int idle ["7"%string]
           two_done).
  left. vm_compute. discriminate.
Defined.

Lemma visible_starts_no_space c s :
  visible c = true -> lstrip (String c s) = String c s.
Proof.
  unfold visible. intros Hc. apply andb_true_iff in Hc.
  destruct Hc as [H1 H2]. apply Nat.ltb_lt in H1, H2.
  assert (E1 : space1 c = false).
  { unfold space1. apply orb_false_iff. split; apply andb_false_iff.
    - right. apply Nat.leb_gt. lia.
    - right. apply Nat.leb_gt. lia. }
  assert (E2 : forall c2, space2 c c2 = false).
  { intros c2. unfold space2. apply andb_false_iff. left.
    apply Nat.eqb_neq. lia. }
  assert (E3 : forall c2 c3, space3 c c2 c3 = false).
  { intros c2 c3. unfold space3.
    assert (N1 : Nat.eqb (byte c) 225 = false) by (apply Nat.eqb_neq; lia).
    assert (N2 : Nat.eqb (byte c) 226 = false) by (apply Nat.eqb_neq; lia).
    assert (N3 : Nat.eqb (byte c) 227 = false) by (apply Nat.eqb_neq; lia).
    rewrite N1, N2, N3. reflexivity. }
  cbn [lstrip]. rewrite E1.
  destruct s as [|c2 s2]; [reflexivity|]. rewrite E2.
  destruct s2 as [|c3 s3]; [reflexivity|]. rewrite E3. reflexivity.
Qed.

Lemma prefix_rstrip p :
  all_visible p = true ->
  forall s, String.prefix p s = true -> String.prefix p (rstrip s) = true.
Proof.
  induction p as [|c p IH]; intros Hp s Hs;
    [destruct (rstrip s); reflexivity|].
  simpl in Hp. apply andb_true_iff in Hp. destruct Hp as [Hc Hp].
  destruct s as [|c' s]; [discriminate|].
  simpl in Hs. destruct (ascii_dec c c') as [<-|]; [|discriminate].
  specialize (IH Hp s Hs).
  cbn [rstrip]. unfold blank. rewrite (visible_starts_no_space c s Hc).
  simpl. destruct (ascii_dec c c); [exact IH | congruence].
Qed.

Lemma prefix_lstrip c p s :
  visible c = true ->
  String.prefix (String c p) s = true -> lstrip s = s.
Proof.
  intros Hc Hs. destruct s as [|c' s]; [reflexivity|].
  simpl in Hs. destruct (ascii_dec c c') as [<-|]; [|discriminate].
  apply visible_starts_no_space. exact Hc.
Qed.

Lemma is_url_strip body : is_url body = true -> is_url (strip body) = true.
Proof.
  unfold is_url, strip. intros H. apply orb_true_iff in H.
  apply orb_true_iff. destruct H as [H|H]; [left | right].
  - rewrite (prefix_lstrip "h"%char "ttp://" body eq_refl H).
    apply prefix_rstrip; [reflexivity | exact H].
  - rewrite (prefix_lstrip "h"%char "ttps://" body eq_refl H).
    apply prefix_rstrip; [reflexivity | exact H].
Qed.

(** [strip] takes the whitespace of every width off both ends and leaves
    the rest of the text as it is. *)
Example strip_unicode_whitespace :
  strip (String (ascii_of_nat 194) (String (ascii_of_nat 160)
           ("http://a b" ++ String (ascii_of_nat 226)
              (String (ascii_of_nat 128) (String (ascii_of_nat 131)
                 (String (ascii_of_nat 10) EmptyString))))))
  = "http://a b"%string.
Proof. vm_compute. reflexivity. Qed.

(** X13: a text message is either ignored, when it does not start with
    [http://] or [https://], or enqueued as one link that still carries
    that prefix after [strip]: the loop never drops a link that came in
    as a text message as malformed. *)
Theorem text_links_keep_their_scheme during sender body s :
  (is_url body = false
   /\ handle_message during sender (mkMessage None (Some body)) s
      = (s, Silent))
  \/ (is_url (strip body) = true
      /\ handle_message during sender (mkMessage None (Some body)) s
         = (fst (add_links_to_queue during [strip body] sender s),
            Answered (snd (add_links_to_queue during [strip body] sender s)))).
Proof.
  unfold handle_message. cbn [document text].
  destruct (is_url body) eqn:Hu.
  - right. split; [apply is_url_strip; exact Hu|].
    destruct (add_links_to_queue during [strip body] sender s). reflexivity.
  - left. split; reflexivity.
Qed.

Lemma strip_blank_lines raw :
  Forall (fun l => strip l = EmptyString) raw ->
  filter nonblank (map strip raw) = [].
Proof.
  induction 1 as [|l raw Hl _ IH]; [reflexivity|].
  simpl. rewrite Hl. exact IH.
Qed.

(** X14: a text file without a single link, sent to a bot that has no
    batch, still starts one: the operator is told that the processing of 0
    links starts, a new task is created unless one is still alive (it is
    created when there was none and when the last one is done), and the loop
    sends a summary with no success and no failure. *)
Theorem empty_upload_starts_empty_batch during sender raw s w es :
  all_links (current_batch s) = [] ->
  Forall (fun l => strip l = EmptyString) raw ->
  arrive_final w = nobody ->
  io_final_error w = None ->
  snd (handle_message during sender
         (mkMessage (Some (Upload "text/plain" (Some raw))) None) s)
  = Answered [Replied (RBatchStarting 0)]
  /\ processing_task
       (fst (handle_message during sender
               (mkMessage (Some (Upload "text/plain" (Some raw))) None) s))
     = match processing_task s with
       | NoTask => Scheduled
       | Finished => Scheduled
       | Scheduled => Scheduled
       | Suspended => Suspended
       end
  /\ (no_live_task s ->
      processing_task
        (fst (handle_message during sender
                (mkMessage (Some (Upload "text/plain" (Some raw))) None) s))
      = Scheduled)
  /\ exists b',
       process_batch w es
         (current_batch
            (fst (handle_message during sender
                    (mkMessage (Some (Upload "text/plain" (Some raw))) None)
                    s)))
       = (Ok tt, b', [SummarySent 0 0 (now_end w - now_start w)])
       /\ is_processing b' = false.
Proof.
  intros Hall Hraw Hfin Hok.
  unfold handle_message. cbn [document text String.eqb Ascii.eqb Bool.eqb].
  rewrite (strip_blank_lines raw Hraw).
  unfold add_links_to_queue. rewrite Hall. cbn [nonempty negb fst snd].
  split; [reflexivity|]. split; [|split].
  - cbn. destruct (processing_task s); reflexivity.
  - cbn. intros [-> | ->]; reflexivity.
  - eexists. cbn [current_batch]. split.
    + unfold process_batch, guarded_loop, final_report, try_catch,
        try_finally, bind, modify, get.
      cbv beta iota. destruct es; cbn; rewrite Hfin, Hok; reflexivity.
    + reflexivity.
Qed.

Lemma empty_upload_starts_empty_batch_witness :
  processing_task
    (fst (handle_message idle operator
            (mkMessage (Some (Upload "text/plain" (Some [" "%string])))
               None) cleared))
  = Scheduled.
Proof.
  refine (proj1 (proj2 (proj2
            (empty_upload_starts_empty_batch idle operator [" "%string]
               cleared world [] eq_refl _ eq_refl eq_refl)))
            _).
  - repeat constructor.
  - right. reflexivity.
Defined.

(** ** The downloader *)

(** X15: [get_highest_quality_video] returns a file only if its size on
    disk is within [MAX_VIDEO_SIZE], and then that file is all it wrote;
    when it returns [None], any file it wrote was over the limit and has
    been removed again, unless the removal itself failed. *)
Theorem download_respects_limit w url :
  match get_highest_quality_video w url with
  | (Some st_size, d) =>
      st_size <= MAX_VIDEO_SIZE /\ exists lib, d = [Written lib st_size]
  | (None, d) =>
      forall lib st_size,
        In (Written lib st_size) d ->
        MAX_VIDEO_SIZE < st_size
        /\ (unlink_raises w = false -> In (Removed st_size) d)
  end.
Proof.
  unfold get_highest_quality_video.
  destruct (negb (check_video_size w)); [intros ? ? []|].
  destruct (has_yt_dlp w).
  - destruct (yt_dlp_file w) as [| |st]; try (intros ? ? []).
    destruct (MAX_VIDEO_SIZE <? st) eqn:Hs.
    + apply Z.ltb_lt in Hs.
      destruct (unlink_raises w); intros lib z Hin; simpl in Hin;
          repeat match goal with
                 | H : _ \/ _ |- _ => destruct H
                 end;
          try contradiction; try discriminate;
          match goal with
          | H : Written _ _ = Written _ _ |- _ => injection H as <- <-
          end;
          (split; [exact Hs|]); intros; try discriminate; simpl; auto.
    + apply Z.ltb_ge in Hs. split; [exact Hs | eauto].
  - destruct (negb (has_pytube w)); [intros ? ? []|].
    destruct (contains "youtube.com" url || contains "youtu.be" url);
      [|intros ? ? []].
    destruct (pytube_stream w) as [| |announced [st|]]; try (intros ? ? []).
    + destruct (MAX_VIDEO_SIZE <? announced); [intros ? ? []|].
      destruct (MAX_VIDEO_SIZE <? st) eqn:Hs.
      * apply Z.ltb_lt in Hs.
        destruct (unlink_raises w); intros lib z Hin; simpl in Hin;
          repeat match goal with
                 | H : _ \/ _ |- _ => destruct H
                 end;
          try contradiction; try discriminate;
          match goal with
          | H : Written _ _ = Written _ _ |- _ => injection H as <- <-
          end;
          (split; [exact Hs|]); intros; try discriminate; simpl; auto.
      * apply Z.ltb_ge in Hs. split; [exact Hs | eauto].
    + destruct (MAX_VIDEO_SIZE <? announced); intros ? ? [].
Qed.

(** X16: when the size announced before the transfer is over the limit
    (by yt-dlp's metadata, or by the pytube stream when yt-dlp is absent),
    nothing is transferred at all. *)
Theorem announced_oversize_not_transferred w url announced :
  MAX_VIDEO_SIZE < announced ->
  (has_yt_dlp w = true /\ probed w = ProbeSize announced)
  \/ (has_yt_dlp w = false
      /\ exists file, pytube_stream w = Stream announced file) ->
  get_highest_quality_video w url = (None, []).
Proof.
  intros Hbig [[Hy Hp] | [Hy [file Hs]]]; unfold get_highest_quality_video,
    check_video_size; rewrite Hy.
  - rewrite Hp.
    assert (H : (announced <=? MAX_VIDEO_SIZE) = false)
      by (apply Z.leb_gt; exact Hbig).
    rewrite H. reflexivity.
  - cbn [negb]. rewrite Hs.
    assert (H : (MAX_VIDEO_SIZE <? announced) = true)
      by (apply Z.ltb_lt; exact Hbig).
    rewrite H.
    destruct (negb (has_pytube w)); [reflexivity|].
    destruct (contains "youtube.com" url || contains "youtu.be" url);
      reflexivity.
Qed.

Lemma announced_oversize_not_transferred_witness :
  get_highest_quality_video announced_too_large "http://a" = (None, []).
Proof.
  apply (announced_oversize_not_transferred announced_too_large
           "http://a"%string (MAX_VIDEO_SIZE + 1)).
  - vm_compute. reflexivity.
  - left. split; reflexivity.
Defined.

(** X17: without yt-dlp only YouTube addresses are tried: for a link that
    contains neither [youtube.com] nor [youtu.be] nothing is transferred
    and the result is [None]. *)
Theorem without_yt_dlp_only_youtube w url :
  has_yt_dlp w = false ->
  contains "youtube.com" url = false ->
  contains "youtu.be" url = false ->
  get_highest_quality_video w url = (None, []).
Proof.
  intros Hy H1 H2. unfold get_highest_quality_video, check_video_size.
  rewrite Hy, H1, H2. cbn. destruct (has_pytube w); reflexivity.
Qed.

Lemma without_yt_dlp_only_youtube_witness :
  get_highest_quality_video pytube_only "http://vimeo.com/1" = (None, []).
Proof.
  exact (without_yt_dlp_only_youtube pytube_only "http://vimeo.com/1"%string
           eq_refl eq_refl eq_refl).
Defined.

(** X18: whatever made the download return no file (an error of the
    library or of the network, a size over the limit, an unsupported
    address), [process_single_link] tells the operator that the video
    exceeds 49MB, puts the link into [failed] and leaves [processed] as it
    is. *)
Theorem every_download_failure_reads_as_size_limit w url e b still_there :
  quiet e ->
  fst (get_highest_quality_video w url) = None ->
  io_fetch e = seen_by_link (fst (get_highest_quality_video w url)) still_there ->
  exists b' t,
    process_single_link e url b = (Ok false, b', t)
    /\ failed b' = failed b ++ [url]
    /\ processed b' = processed b
    /\ completions t
       = match io_completion_error e with
         | Some _ => []
         | None =>
             [CompletionSent url false "Video exceeds 49MB limit"
                (processed b) (len (all_links b))
                (len (all_links b) - processed b)]
         end.
Proof.
  intros Hq Hnone Hio. rewrite Hnone in Hio. cbn in Hio.
  destruct (process_single_link_fails e url b
              "Video exceeds 49MB limit"%string Hq)
    as (b' & t & E & H1 & H2 & _ & H3).
  - unfold failure_reason. rewrite Hio. reflexivity.
  - exists b', t. repeat split; assumption.
Qed.

Lemma every_download_failure_reads_as_size_limit_witness :
  exists b' t,
    process_single_link too_large "http://vimeo.com/1" third_link_next
    = (Ok false, b', t)
    /\ failed b' = failed third_link_next ++ ["http://vimeo.com/1"%string].
Proof.
  destruct (every_download_failure_reads_as_size_limit pytube_only
              "http://vimeo.com/1"%string too_large third_link_next true)
    as (b' & t & E & H & _).
  - intros s. reflexivity.
  - reflexivity.
  - reflexivity.
  - exists b', t. split; assumption.
Defined.
